(** * ontobio: the owlsim2 similarity client

    A shallow embedding of [ontobio/sim/api/owlsim2.py] (class [OwlSim2Api])
    and of the records of [ontobio/model/similarity.py], with the properties
    of the result ranker, the namespace resolver and the result assembly.

    Conventions of the embedding.
    - A parsed JSON document is a [json] tree; a Python [dict] with string
      keys is a [gmap string json] (insertion order is not observable by
      any code modelled here).
    - A Python [int] is a [Z]; a finite Python [float] is the rational it
      denotes, a [Qc]; the floats [nan], [inf] and [-inf], which [json.loads]
      accepts, are [JNaN] and [JInfinity].  Python compares numbers of
      either type by value, with every comparison on [nan] false.
    - The comparisons of [sorted] and of the ranking loop are those of
      Python on the JSON values, [py_lt]; [sorted] is the sort of CPython,
      [list_sort], on the reversed list.
    - An exception is a value of [exn]; a computation that may raise is in
      [res].  Code that logs or talks to the remote service runs in [M],
      which threads the trace of observable events.
    - [result['rank'] = rank] updates the dictionary in place; the embedding
      returns the updated dictionary.  The dictionaries of a parsed response
      are pairwise distinct objects, so no aliasing is lost. *)

From Stdlib Require Import ZArith QArith Qcanon Ascii String Sorted Permutation Lia.
From stdpp Require Import base option gmap strings list fin_maps sorting pretty.

(** ** Values *)

#[warnings="-register-all"]
Inductive json : Type :=
| JNull
| JBool (b : bool)
| JInt (z : Z)
| JFloat (q : Qc)
| JNaN
| JInfinity (negative : bool)
| JStr (s : string)
| JArr (l : list json)
| JObj (o : gmap string json).

Abbreviation dict := (gmap string json).

Inductive exn : Type :=
| KeyError
| IndexError
| TypeError
| AttributeError
| ValueError (msg : string)
| RequestError (msg : string).

Inductive res (A : Type) : Type :=
| Ok (a : A)
| Raise (e : exn).
Arguments Ok {A} a.
Arguments Raise {A} e.

#[global] Instance res_ret : MRet res := fun A a => Ok a.
#[global] Instance res_bind : MBind res := fun A B f m =>
  match m with
  | Ok a => f a
  | Raise e => Raise e
  end.

(** [d[k]] on a dictionary. *)
Definition getitem (d : dict) (k : string) : res json :=
  match d !! k with
  | Some v => Ok v
  | None => Raise KeyError
  end.

(** [v[k]] on an arbitrary value: only a dictionary can be indexed by a
    string. *)
Definition subscript (v : json) (k : string) : res json :=
  match v with
  | JObj o => getitem o k
  | _ => Raise TypeError
  end.

(** The reading of an [int] or of a finite [float] as a rational, for the
    statements about numeric scores; no code path goes through it. *)
Definition as_number (v : json) : res Qc :=
  match v with
  | JInt z => Ok (Qc_of_Z z)
  | JFloat q => Ok q
  | _ => Raise TypeError
  end.

(** [x < y] on numbers, as a boolean. *)
Definition Qc_ltb (x y : Qc) : bool :=
  (Qnum x * Zpos (Qden y) <? Qnum y * Zpos (Qden x))%Z.

(** ** The order of Python on the values *)

(** A number of Python: a rational, [nan], or an infinity. *)
Inductive pynum : Type :=
| Fin (q : Qc)
| NaN
| Inf (negative : bool).

(** The values that Python compares as numbers: [bool] is a subtype of
    [int]. *)
Definition to_num (v : json) : option pynum :=
  match v with
  | JBool b => Some (Fin (Qc_of_Z (if b then 1 else 0)))
  | JInt z => Some (Fin (Qc_of_Z z))
  | JFloat q => Some (Fin q)
  | JNaN => Some NaN
  | JInfinity negative => Some (Inf negative)
  | _ => None
  end.

(** [x < y] on numbers. *)
Definition num_lt (x y : pynum) : bool :=
  match x, y with
  | NaN, _ | _, NaN => false
  | Fin a, Fin b => Qc_ltb a b
  | Inf true, Inf true => false
  | Inf true, _ => true
  | _, Inf true => false
  | Inf false, _ => false
  | Fin _, Inf false => true
  end.

(** [x <= y] on numbers. *)
Definition num_le (x y : pynum) : bool :=
  match x, y with
  | NaN, _ | _, NaN => false
  | _, _ => negb (num_lt y x)
  end.

(** [a < b] on values; [a > b] is [py_lt b a].  Numbers are compared by
    value and strings by their characters; [None], a dictionary, and two
    values of different kinds are not ordered.  Python orders two lists by
    their first differing elements; a list as a score is outside the model
    and reported as [TypeError]. *)
Definition py_lt (a b : json) : res bool :=
  match to_num a, to_num b with
  | Some x, Some y => Ok (num_lt x y)
  | _, _ =>
    match a, b with
    | JStr s, JStr t => Ok (String.ltb s t)
    | _, _ => Raise TypeError
    end
  end.

(** The items that a [for] loop or [sorted] draws from a value: the elements
    of a list, the keys of a dictionary, the characters of a string; any
    other value is not iterable.  The order of the keys of a dictionary is
    not modelled; the code modelled here subscripts every item with a
    string, which fails on the first key or character whichever it is. *)
Fixpoint characters (s : string) : list json :=
  match s with
  | EmptyString => []
  | String c s' => JStr (String c EmptyString) :: characters s'
  end.

Definition iterate (v : json) : res (list json) :=
  match v with
  | JArr l => Ok l
  | JObj o => Ok (JStr <$> (map_to_list o).*1)
  | JStr s => Ok (characters s)
  | _ => Raise TypeError
  end.

(** ** The scoring methods *)

(** The members of [SimAlgorithm] that the client names. *)
Inductive SimAlgorithm : Type :=
| PHENODIGM
| JACCARD
| SIM_GIC
| RESNIK
| SYMMETRIC_RESNIK.

Definition method2key (method : SimAlgorithm) : string :=
  match method with
  | PHENODIGM => "combinedScore"
  | JACCARD => "simJ"
  | SIM_GIC => "simGIC"
  | RESNIK => "bmaAsymIC"
  | SYMMETRIC_RESNIK => "bmaSymIC"
  end.

Definition matchers : list SimAlgorithm :=
  [PHENODIGM; JACCARD; SIM_GIC; RESNIK; SYMMETRIC_RESNIK].

(** ** The result ranker *)

(** [result[key]] read as a rational: the score of a result whose score is
    an [int] or a finite [float]. *)
Definition score (key : string) (result : dict) : res Qc :=
  getitem result key ≫= as_number.

(** *** The sort of CPython

    [list.sort], as CPython 3.6 to 3.12 runs it on a list of fewer than 64
    elements: the natural run at the front is found by [count_run] (a
    strictly descending run is reversed), and each further element is put
    in place by a binary insertion.  The comparison may raise, and need not
    be a total order.  On 64 elements and more CPython sorts runs of 32 to
    64 elements in this way and merges them; where [<] orders the keys
    totally every stable sort returns the same list, on other keys the
    merges are not modelled. *)

Section ListSort.
Context {K A : Type} (lt : K → K → res bool).

(** The longest prefix of [l] that goes on a run without a descent, after
    [prev], and the rest. *)
Fixpoint run_ascending (prev : K * A) (l : list (K * A))
    : res (list (K * A) * list (K * A)) :=
  match l with
  | [] => mret ([], [])
  | x :: l' =>
    smaller ← lt x.1 prev.1;
    if smaller : bool then mret ([], l)
    else pr ← run_ascending x l'; mret (x :: pr.1, pr.2)
  end.

(** The longest prefix of [l] that goes on a strictly descending run, after
    [prev], and the rest. *)
Fixpoint run_descending (prev : K * A) (l : list (K * A))
    : res (list (K * A) * list (K * A)) :=
  match l with
  | [] => mret ([], [])
  | x :: l' =>
    smaller ← lt x.1 prev.1;
    if smaller : bool then pr ← run_descending x l'; mret (x :: pr.1, pr.2)
    else mret ([], l)
  end.

(** The run at the front of the list, in ascending order, and the rest. *)
Definition count_run (l : list (K * A)) : res (list (K * A) * list (K * A)) :=
  match l with
  | x0 :: x1 :: l' =>
    descending ← lt x1.1 x0.1;
    if descending : bool
    then pr ← run_descending x1 l'; mret (reverse (x0 :: x1 :: pr.1), pr.2)
    else pr ← run_ascending x1 l'; mret (x0 :: x1 :: pr.1, pr.2)
  | _ => mret (l, [])
  end.

(** The binary search of [binarysort] for the place of [pivot] in [s],
    between [l] and [r]. *)
Fixpoint bisect (pivot : K * A) (s : list (K * A)) (l r fuel : nat) : res nat :=
  match fuel with
  | O => mret l
  | S fuel' =>
    if (l <? r)%nat then
      let p := (l + (r - l) / 2)%nat in
      match s !! p with
      | Some x =>
        smaller ← lt pivot.1 x.1;
        if smaller : bool then bisect pivot s l p fuel'
        else bisect pivot s (S p) r fuel'
      | None => mret l
      end
    else mret l
  end.

Definition binary_insert (s : list (K * A)) (pivot : K * A) : res (list (K * A)) :=
  i ← bisect pivot s 0 (length s) (length s);
  mret (take i s ++ pivot :: drop i s).

Fixpoint binarysort (s rest : list (K * A)) : res (list (K * A)) :=
  match rest with
  | [] => mret s
  | pivot :: rest' => s' ← binary_insert s pivot; binarysort s' rest'
  end.

Definition list_sort (l : list (K * A)) : res (list (K * A)) :=
  match l with
  | _ :: _ :: _ => pr ← count_run l; binarysort pr.1 pr.2
  | _ => mret l
  end.

End ListSort.

(** [sorted(xs, reverse=True, key=f)]: the key of every element is computed
    first, in order; the list is reversed, sorted on the keys, and reversed
    again, which keeps the sort stable. *)
Definition sorted_reverse {A : Type} (f : A → res json) (xs : list A) : res (list A) :=
  keys ← mapM f xs;
  s ← list_sort py_lt (reverse (zip keys xs));
  mret (snd <$> reverse s).

(** The loop of [_rank_results], with the two reads of the score that the
    source makes around the update of ['rank']. *)
Fixpoint rank_loop (key : string) (rank : Z) (previous_score : json)
    (sorted_results : list dict) : res (list dict) :=
  match sorted_results with
  | [] => mret []
  | result :: rest =>
    s ← getitem result key;
    lower ← py_lt s previous_score;
    let rank := if lower : bool then (rank + 1)%Z else rank in
    let result := <["rank" := JInt rank]> result in
    previous_score ← getitem result key;
    rest ← rank_loop key rank previous_score rest;
    mret (result :: rest)
  end.

Definition _rank_results (results : list dict) (method : SimAlgorithm) : res (list dict) :=
  sorted_results ← sorted_reverse (fun k => getitem k (method2key method)) results;
  match sorted_results with
  | [] => Raise IndexError
  | first :: _ =>
    previous_score ← getitem first (method2key method);
    rank_loop (method2key method) 1 previous_score sorted_results
  end.

(** The rank that a ranked result carries. *)
Definition rank_of (result : dict) : option Z :=
  match result !! "rank" with
  | Some (JInt k) => Some k
  | _ => None
  end.

(** A result list whose scores under [key] are the given integers. *)
Definition scored (key : string) (scores : list Z) : list dict :=
  (fun z => {[ key := JInt z ]}) <$> scores.

(** ** The namespace resolver *)

(** Taxon to namespace, by category. *)
Definition TAX_TO_NS : gmap Z (gmap string string) :=
  {[ 10090%Z := {[ "gene" := "MGI" ]};
     9606%Z := {[ "disease" := "MONDO"; "case" := "MONARCH"; "gene" := "HGNC" ]};
     7227%Z := {[ "gene" := "FlyBase" ]};
     6239%Z := {[ "gene" := "WormBase" ]};
     7955%Z := {[ "gene" := "ZFIN" ]} ]}.

Definition taxon_category_default : gmap Z string :=
  {[ 10090%Z := "gene";
     9606%Z := "disease";
     7227%Z := "gene";
     6239%Z := "gene";
     7955%Z := "gene" ]}.

(** [str.lower] on the ASCII letters. *)
Definition lower_ascii (c : ascii) : ascii :=
  let n := nat_of_ascii c in
  if (65 <=? n)%nat && (n <=? 90)%nat then ascii_of_nat (n + 32) else c.

Fixpoint lower (s : string) : string :=
  match s with
  | EmptyString => EmptyString
  | String c s' => String (lower_ascii c) (lower s')
  end.

(** [m[k]] on a table. *)
Definition table_get `{Countable K} {V : Type} (m : gmap K V) (k : K) : res V :=
  match m !! k with
  | Some v => Ok v
  | None => Raise KeyError
  end.

Definition _get_namespace_filter (taxon_filter : option Z)
    (category_filter : option string) : res (option string) :=
  let namespace_filter : option string := None in
  match category_filter, taxon_filter with
  | Some _, None =>
    Raise (ValueError "Must provide taxon filter along with category")
  | None, Some taxon =>
    category_filter ← table_get taxon_category_default taxon;
    by_category ← table_get TAX_TO_NS taxon;
    namespace ← table_get by_category (lower category_filter);
    mret (Some namespace)
  | _, _ => mret namespace_filter
  end.

(** ** The records of [ontobio.model.similarity] *)

Record Node : Type := mkNode {
  node_id : json;
  node_label : json
}.

Record ICNode : Type := mkICNode {
  icnode_id : json;
  icnode_IC : json;
  icnode_label : json
}.

Record PairwiseMatch : Type := mkPairwiseMatch {
  pm_query : ICNode;
  pm_match : ICNode;
  pm_lcs : ICNode
}.

(** [taxon] holds a [Node], or the empty dictionary that the client passes
    for an unmapped namespace, here [None]. *)
Record SimMatch : Type := mkSimMatch {
  sm_id : json;
  sm_label : json;
  sm_rank : json;
  sm_score : json;
  sm_type : json;
  sm_taxon : option Node;
  sm_significance : json;
  sm_pairwise_match : list PairwiseMatch
}.

Record SimQuery : Type := mkSimQuery {
  sq_ids : list Node;
  sq_negated_ids : list Node;
  sq_unresolved_ids : json;
  sq_target_ids : list (list Node)
}.

Record SimResult : Type := mkSimResult {
  sr_query : SimQuery;
  sr_matches : list SimMatch
}.

(** [SimQuery.__init__] with [negated_ids] left out: the absent arguments
    take their defaults. *)
Definition SimQuery_init (ids : list Node) (unresolved_ids : json)
    (target_ids : list (list Node)) : SimQuery :=
  {| sq_ids := ids;
     sq_negated_ids := [];
     sq_unresolved_ids :=
       match unresolved_ids with JNull => JArr [] | v => v end;
     sq_target_ids := target_ids |}.

(** ** Result assembly *)

Definition human_tax : Node :=
  mkNode (JStr "NCBITaxon:9606") (JStr "Homo sapiens").

Definition NS_TO_TAX : gmap string Node :=
  {[ "MGI" := mkNode (JStr "NCBITaxon:10090") (JStr "Mus musculus");
     "MONDO" := human_tax;
     "OMIM" := human_tax;
     "MONARCH" := human_tax;
     "HGNC" := human_tax;
     "FlyBase" := mkNode (JStr "NCBITaxon:7227") (JStr "Drosophila melanogaster");
     "WormBase" := mkNode (JStr "NCBITaxon:6239") (JStr "Caenorhabditis elegans");
     "ZFIN" := mkNode (JStr "NCBITaxon:7955") (JStr "Danio rerio") ]}.

(** [s.split(":")[0]]: the part of [s] in front of its first colon. *)
Fixpoint before_colon (s : string) : string :=
  match s with
  | EmptyString => EmptyString
  | String c s' => if Ascii.eqb c ":" then EmptyString else String c (before_colon s')
  end.

(** [v.split(":")[0]] on a value: only a string has [split]. *)
Definition namespace_of (v : json) : res string :=
  match v with
  | JStr s => Ok (before_colon s)
  | _ => Raise AttributeError
  end.

Definition as_dict (v : json) : res dict :=
  match v with
  | JObj o => Ok o
  | _ => Raise TypeError
  end.

(** [ICNode] built from the keywords of a dictionary: [id] and [IC] are required, [label] is optional, any
    other keyword is refused. *)
Definition ICNode_init (v : json) : res ICNode :=
  d ← as_dict v;
  if bool_decide (dom d ⊆ ({[ "id"; "IC"; "label" ]} : gset string)) then
    match d !! "id", d !! "IC" with
    | Some i, Some ic => Ok (mkICNode i ic (default JNull (d !! "label")))
    | _, _ => Raise TypeError
    end
  else Raise TypeError.

Definition _make_pairwise_matches (result : dict) : res (list PairwiseMatch) :=
  matches ← getitem result "matches" ≫= iterate;
  mapM (fun pairwise_match =>
          a ← subscript pairwise_match "a" ≫= ICNode_init;
          b ← subscript pairwise_match "b" ≫= ICNode_init;
          l ← subscript pairwise_match "lcs" ≫= ICNode_init;
          mret (mkPairwiseMatch a b l)) matches.

(** ** The client *)

(** What the client does that can be observed from outside: a record
    handed to [logging.warning], and a GET request with its parameters. *)
Inductive event : Type :=
| LogWarning (msg : string)
| HttpGet (url : string) (params : dict).

(** A computation of the client: it extends the trace of events and
    returns or raises. *)
Definition M (A : Type) : Type := list event → res A * list event.

#[global] Instance M_ret : MRet M := fun A a t => (Ok a, t).
#[global] Instance M_bind : MBind M := fun A B f m t =>
  match m t with
  | (Ok a, t') => f a t'
  | (Raise e, t') => (Raise e, t')
  end.

Definition lift {A : Type} (r : res A) : M A := fun t => (r, t).
Definition emit (e : event) : M unit := fun t => (Ok tt, t ++ [e]).
Definition run {A : Type} (m : M A) : res A * list event := m [].

Definition is_warning (e : event) : bool :=
  match e with LogWarning _ => true | HttpGet _ _ => false end.
Definition is_request (e : event) : bool :=
  match e with HttpGet _ _ => true | LogWarning _ => false end.

Record OwlSim2Api : Type := mkOwlSim2Api {
  url : string;
  timeout : json
}.

Section Client.

(** The remote service: the parsed body of the response to a GET request,
    or the exception that [requests.get(...).json()] raises. *)
Variable remote : string → dict → res json.

(** The collaborators of [ontobio.util.scigraph_util], which are not part
    of this module: the nodes of a list of identifiers, and the type tags
    of each identifier. *)
Variable get_nodes_from_ids : json → res (list Node).
Variable get_id_type_map : list json → res (json → option (list json)).

Definition http_get (owlsim_url : string) (params : dict) : M json :=
  fun t => (remote owlsim_url params, t ++ [HttpGet owlsim_url params]).

(** A profile as the value of a request parameter.  The [params] of a
    request are recorded as the client hands them to [requests.get]; an
    absent namespace is the [None] under ['target'], here [JNull]. *)
Definition profile_param (profile : list string) : json := JArr (JStr <$> profile).

Definition search_by_attribute_set (self : OwlSim2Api) (profile : list string)
    (namespace_filter : option string) : M json :=
  let owlsim_url := (url self ++ "searchByAttributeSet")%string in
  let params : dict :=
    {[ "a" := profile_param profile;
       "target" := from_option JStr JNull namespace_filter ]} in
  http_get owlsim_url params.

Definition compare_attribute_sets (self : OwlSim2Api) (profile_a profile_b : list string)
    : M json :=
  let owlsim_url := (url self ++ "compareAttributeSets")%string in
  let params : dict :=
    {[ "a" := profile_param profile_a;
       "b" := profile_param profile_b ]} in
  http_get owlsim_url params.

(** [result['j'][k]]. *)
Definition j_field (result : dict) (k : string) : res json :=
  j ← getitem result "j";
  subscript j k.

(** One iteration of the loop of [_simsearch_to_simresult]. *)
Definition make_match (id_type_map : json → option (list json))
    (method : SimAlgorithm) (mode : string) (result : dict) : res SimMatch :=
  ns ← j_field result "id" ≫= namespace_of;
  let taxon := NS_TO_TAX !! ns in
  i ← j_field result "id";
  label ← j_field result "label";
  rank ← (if String.eqb mode "search" then getitem result "rank" else mret (JStr "NaN"));
  sc ← getitem result (method2key method);
  types ← match id_type_map i with Some l => Ok l | None => Raise KeyError end;
  type ← match types with t :: _ => Ok t | [] => Raise IndexError end;
  pairwise_match ← _make_pairwise_matches result;
  mret {| sm_id := i;
          sm_label := label;
          sm_rank := rank;
          sm_score := sc;
          sm_type := type;
          sm_taxon := taxon;
          sm_significance := JStr "NaN";
          sm_pairwise_match := pairwise_match |}.

(** The items of [sim_resp['results']] as the list of dictionaries that
    [_rank_results] ranks, for the statements about a response. *)
Definition response_results (sim_resp : json) : res (list dict) :=
  results ← subscript sim_resp "results";
  iterate results ≫= mapM as_dict.

(** The argument of [_rank_results]: [sorted] draws the items of
    [sim_resp['results']] and subscripts each of them with the key of the
    method, in order, before it compares any; past that point every item is
    a dictionary. *)
Definition ranked_input (sim_resp : json) (method : SimAlgorithm) : res (list dict) :=
  results ← subscript sim_resp "results";
  items ← iterate results;
  _ ← mapM (fun item => subscript item (method2key method)) items;
  mapM as_dict items.

Definition _simsearch_to_simresult (sim_resp : json) (method : SimAlgorithm)
    (mode : string) : res SimResult :=
  sim_ids ← subscript sim_resp "query_IRIs" ≫= get_nodes_from_ids;
  results ← ranked_input sim_resp method;
  results ← _rank_results results method;
  ids ← mapM (fun result => j_field result "id") results;
  id_type_map ← get_id_type_map ids;
  matches ← mapM (make_match id_type_map method mode) results;
  target_ids ←
    (if String.eqb mode "compare"
     then nodes ← subscript sim_resp "target_IRIs" ≫= get_nodes_from_ids; mret [nodes]
     else mret [[]]);
  unresolved ← subscript sim_resp "unresolved";
  mret {| sr_query := SimQuery_init sim_ids unresolved target_ids;
          sr_matches := matches |}.

Definition compare (self : OwlSim2Api) (reference_classes query_classes : list string)
    (method : SimAlgorithm) : M SimResult :=
  owlsim_results ← compare_attribute_sets self reference_classes query_classes;
  lift (_simsearch_to_simresult owlsim_results method "compare").

Definition filtered_search (self : OwlSim2Api) (id_list negated_classes : list string)
    (taxon_filter : option Z) (category_filter : option string)
    (method : SimAlgorithm) : M SimResult :=
  _ ← (if (0 <? length negated_classes)%nat
       then emit (LogWarning "Owlsim2 does not support negation, ignoring neg classes")
       else mret tt);
  namespace_filter ← lift (_get_namespace_filter taxon_filter category_filter);
  owlsim_results ← search_by_attribute_set self id_list namespace_filter;
  lift (_simsearch_to_simresult owlsim_results method "search").

Definition search (self : OwlSim2Api) (id_list negated_classes : list string)
    (method : SimAlgorithm) : M SimResult :=
  filtered_search self id_list negated_classes None None method.

(** A profile that may be absent, as the value of a request parameter. *)
Definition optional_profile_param (profile : option (list string)) : json :=
  from_option profile_param JNull profile.

Definition get_attribute_information_profile (self : OwlSim2Api)
    (profile categories : option (list string)) : M json :=
  let owlsim_url := (url self ++ "getAttributeInformationProfile")%string in
  let params : dict :=
    {[ "a" := optional_profile_param profile;
       "r" := optional_profile_param categories ]} in
  http_get owlsim_url params.

(** A value used as the key of [profile_ic].  The identifiers of the
    service are strings; a key of another type is outside the model and is
    reported as [TypeError]. *)
Definition as_key (v : json) : res string :=
  match v with
  | JStr s => Ok s
  | _ => Raise TypeError
  end.

(** The loop of [get_profile_ic]: [profile_ic[cls['id']] = cls['IC']] for
    each [cls], the right-hand side first.  The [except] clause of the source
    names an exception that the loop cannot raise, so it lets every
    exception of the loop through. *)
Fixpoint profile_ic_loop (profile_ic : gmap string json) (input : list json)
    : res (gmap string json) :=
  match input with
  | [] => mret profile_ic
  | cls :: rest =>
    ic ← subscript cls "IC";
    i ← subscript cls "id" ≫= as_key;
    profile_ic_loop (<[i := ic]> profile_ic) rest
  end.

Definition get_profile_ic (self : OwlSim2Api) (profile : list string)
    : M (gmap string json) :=
  sim_response ← get_attribute_information_profile self (Some profile) None;
  lift (input ← subscript sim_response "input" ≫= iterate;
        profile_ic_loop ∅ input).

End Client.

(** ** Vocabulary of the statements *)

#[global] Instance exn_eq_dec : EqDecision exn.
Proof. solve_decision. Defined.

#[global] Instance res_eq_dec `{EqDecision A} : EqDecision (res A).
Proof. solve_decision. Defined.

#[global] Instance pynum_eq_dec : EqDecision pynum.
Proof. solve_decision. Defined.

#[global] Instance pynum_countable : Countable pynum.
Proof.
  refine (inj_countable'
            (λ x, match x with
                  | Fin q => inl q
                  | NaN => inr None
                  | Inf negative => inr (Some negative)
                  end)
            (λ y, match y with
                  | inl q => Fin q
                  | inr None => NaN
                  | inr (Some negative) => Inf negative
                  end) _).
  by intros [].
Defined.

(** The value is a number other than [nan]. *)
Definition is_number (v : json) : Prop :=
  ∃ x, to_num v = Some x ∧ x ≠ NaN.

(** The result has an [int] or a finite [float] as its score under [key]. *)
Definition has_score (key : string) (result : dict) : Prop :=
  ∃ q, score key result = Ok q.

(** [result[key]] as a number of Python, when it is one. *)
Definition number_score (key : string) (result : dict) : option pynum :=
  match getitem result key with
  | Ok v => to_num v
  | Raise _ => None
  end.

(** The result has a number other than [nan] as its score under [key]. *)
Definition has_number (key : string) (result : dict) : Prop :=
  ∃ x, number_score key result = Some x ∧ x ≠ NaN.

(** The result has score [sk.1] under [key] and carries rank [sk.2]. *)
Definition ranked (key : string) (result : dict) (sk : pynum * Z) : Prop :=
  number_score key result = Some sk.1 ∧ rank_of result = Some sk.2.

(** [after] is [before] with an integer stored under ['rank'] and every
    other field as it was. *)
Definition rank_set (before after : dict) : Prop :=
  (∃ k, after !! "rank" = Some (JInt k)) ∧
  ∀ field : string, field ≠ "rank" → after !! field = before !! field.

(** Dense ranking of a list of (score, rank) pairs: the scores descend, the
    first rank is 1, a rank step is 0 on a tie and 1 on a strictly lower
    score, and equal scores have equal ranks wherever they are. *)
Definition dense_ranking (sks : list (pynum * Z)) : Prop :=
  (∀ i j a b, (i ≤ j)%nat → sks !! i = Some a → sks !! j = Some b →
     num_le b.1 a.1 = true) ∧
  (∀ a, sks !! 0%nat = Some a → a.2 = 1%Z) ∧
  (∀ i a b, sks !! i = Some a → sks !! S i = Some b →
     (b.1 = a.1 → b.2 = a.2) ∧ (num_lt b.1 a.1 = true → b.2 = (a.2 + 1)%Z)) ∧
  (∀ i j a b, sks !! i = Some a → sks !! j = Some b → a.1 = b.1 → a.2 = b.2).

(** The ranks of the results of a call, when it returns and every result
    carries one. *)
Definition ranks_of (r : res (list dict)) : option (list Z) :=
  match r with
  | Ok l => mapM rank_of l
  | Raise _ => None
  end.

(** The ranks that the loop of [_rank_results] hands out along a list of
    numbers. *)
Fixpoint dense_ranks (rank : Z) (previous_score : pynum) (scores : list pynum) : list Z :=
  match scores with
  | [] => []
  | s :: rest =>
    let rank := if num_lt s previous_score then (rank + 1)%Z else rank in
    rank :: dense_ranks rank s rest
  end.

(** The ranks that the loop of [_rank_results] hands out along a list of
    score values of any kind; it raises where a comparison does. *)
Fixpoint rank_list (rank : Z) (previous_score : json) (scores : list json)
    : res (list Z) :=
  match scores with
  | [] => mret []
  | s :: rest =>
    lower ← py_lt s previous_score;
    let rank := if lower : bool then (rank + 1)%Z else rank in
    ranks ← rank_list rank s rest;
    mret (rank :: ranks)
  end.

(** No descent between neighbours: the later key is not smaller. *)
Definition no_descent {K : Type} (lt : K → K → res bool) (a b : K) : Prop :=
  lt b a = Ok false.

(** Neither key is smaller than the other. *)
Definition tied {K : Type} (lt : K → K → res bool) (a b : K) : Prop :=
  lt a b = Ok false ∧ lt b a = Ok false.

#[global] Instance tied_dec {K : Type} (lt : K → K → res bool) (a b : K)
  : Decision (tied lt a b).
Proof. unfold tied. apply _. Defined.

(** Some comparison raises [e]. *)
Definition lt_raises {K : Type} (lt : K → K → res bool) (e : exn) : Prop :=
  ∃ a b, lt a b = Raise e.

(** The scores under [key] descend along the list: no result has a score
    that is lower than the score of a later result. *)
Definition scores_descend (key : string) (out : list dict) : Prop :=
  ∀ i j a b va vb, (i < j)%nat → out !! i = Some a → out !! j = Some b →
    getitem a key = Ok va → getitem b key = Ok vb → py_lt va vb = Ok false.

(** [result['rank'] = k]. *)
Definition set_rank (result : dict) (k : Z) : dict := <["rank" := JInt k]> result.

(** The distinct numbers of the list that are strictly greater than [x]. *)
Definition greater (xs : list pynum) (x : pynum) : gset pynum :=
  list_to_set (filter (λ s, num_lt x s = true) xs).

(** The distinct scores of [results] under [key] that are strictly greater
    than [x]. *)
Definition greater_scores (key : string) (results : list dict) (x : pynum)
    : gset pynum :=
  list_to_set
    (omap (λ r, match number_score key r with
                | Some s => if num_lt x s then Some s else None
                | None => None
                end) results).

(** The node holds the [id] and the [IC] of the raw object, and its [label]
    when it has one, [None] otherwise. *)
Definition icnode_of (raw : json) (n : ICNode) : Prop :=
  subscript raw "id" = Ok (icnode_id n) ∧
  subscript raw "IC" = Ok (icnode_IC n) ∧
  (subscript raw "label" = Ok (icnode_label n) ∨
   (subscript raw "label" = Raise KeyError ∧ icnode_label n = JNull)).

(** The three nodes of the match are those of the raw pairwise object. *)
Definition pairwise_of (raw : json) (pm : PairwiseMatch) : Prop :=
  ∃ a b l,
    subscript raw "a" = Ok a ∧ icnode_of a (pm_query pm) ∧
    subscript raw "b" = Ok b ∧ icnode_of b (pm_match pm) ∧
    subscript raw "lcs" = Ok l ∧ icnode_of l (pm_lcs pm).

(** No colon in the string. *)
Fixpoint colon_free (s : string) : bool :=
  match s with
  | EmptyString => true
  | String c s' => negb (Ascii.eqb c ":") && colon_free s'
  end.

(** The entry of a response for identifier [p.1] with information content
    [p.2]. *)
Definition ic_entry (cls : json) (p : string * json) : Prop :=
  subscript cls "id" = Ok (JStr p.1) ∧ subscript cls "IC" = Ok p.2.

(** ** Sample data *)

Definition example_pairwise : json :=
  JObj {[ "a" := JObj {[ "id" := JStr "HP:0000252"; "IC" := JInt 3 ]};
          "b" := JObj {[ "id" := JStr "HP:0000253"; "IC" := JInt 4;
                         "label" := JStr "Progressive microcephaly" ]};
          "lcs" := JObj {[ "id" := JStr "HP:0000252"; "IC" := JInt 3 ]} ]}.

Definition example_result (i : string) (sc : Z) : dict :=
  {[ "j" := JObj {[ "id" := JStr i; "label" := JStr "individual" ]};
     "combinedScore" := JInt sc;
     "matches" := JArr [example_pairwise] ]}.

Definition example_results : list dict :=
  [example_result "MONDO:1" 7; example_result "MGI:2" 10; example_result "ZFIN:3" 10].

Definition example_response : json :=
  JObj {[ "query_IRIs" := JArr [JStr "HP:0000252"];
          "unresolved" := JArr [];
          "target_IRIs" := JArr [JStr "HP:0000253"];
          "results" := JArr (JObj <$> example_results) ]}.

Definition example_remote (owlsim_url : string) (params : dict) : res json :=
  Ok example_response.

Definition example_nodes (ids : json) : res (list Node) :=
  match ids with
  | JArr l => Ok ((λ i, mkNode i JNull) <$> l)
  | _ => Raise TypeError
  end.

Definition example_types (ids : list json) : res (json → option (list json)) :=
  Ok (λ _, Some [JStr "gene"]).

Definition example_api : OwlSim2Api := mkOwlSim2Api "owlsim/" (JInt 10).

Definition example_compare : res SimResult * list event :=
  run (compare example_remote example_nodes example_types example_api
         ["HP:0000252"] ["HP:0000253"] PHENODIGM).

Definition example_search : res SimResult * list event :=
  run (filtered_search example_remote example_nodes example_types example_api
         ["HP:0000252"] ["HP:0000253"] None None PHENODIGM).

(** The result of a run, or an empty result when the run raised. *)
Definition result_of (r : res SimResult * list event) : SimResult :=
  match r.1 with
  | Ok result => result
  | Raise _ => mkSimResult (SimQuery_init [] JNull [[]]) []
  end.

(** The diagnostic of [filtered_search] for a list of negated classes. *)
Definition negation_warning (negated_classes : list string) : list event :=
  match negated_classes with
  | [] => []
  | _ :: _ => [LogWarning "Owlsim2 does not support negation, ignoring neg classes"]
  end.

(** The ranked sample results. *)
Definition example_ranked : list dict :=
  match _rank_results example_results PHENODIGM with
  | Ok ranked => ranked
  | Raise _ => []
  end.

Definition example_unscored : dict :=
  {[ "j" := JObj {[ "id" := JStr "MONDO:4"; "label" := JStr "individual" ]} ]}.

Definition example_partly_scored : list dict :=
  [example_result "MGI:2" 10; example_unscored].

Definition example_empty_response : json :=
  JObj {[ "query_IRIs" := JArr [JStr "HP:0000252"];
          "unresolved" := JArr [];
          "results" := JArr [] ]}.

Definition example_search_response : dict :=
  {[ "query_IRIs" := JArr [JStr "HP:0000252"];
     "unresolved" := JArr [];
     "results" := JArr (JObj <$> example_results) ]}.

Definition example_type_map (i : json) : option (list json) := Some [JStr "gene"].

Definition example_first : dict := default ∅ (head example_ranked).

Definition example_simmatch : SimMatch :=
  match make_match example_type_map PHENODIGM "search" example_first with
  | Ok m => m
  | Raise _ => mkSimMatch JNull JNull JNull JNull JNull None JNull []
  end.

Definition example_ic_pairs : list (string * json) :=
  [("HP:0000252", JInt 3); ("HP:0000253", JInt 4); ("HP:0000252", JInt 5)].

Definition example_ic_input : list json :=
  (λ p : string * json, JObj {[ "id" := JStr p.1; "IC" := p.2 ]}) <$> example_ic_pairs.

Definition example_ic_response : json := JObj {[ "input" := JArr example_ic_input ]}.

Definition example_ic_remote (owlsim_url : string) (params : dict) : res json :=
  Ok example_ic_response.


(** A result with identifier [i] and the value [v] as its Jaccard score. *)
Definition example_scored (i : string) (v : json) : dict :=
  {[ "j" := JObj {[ "id" := JStr i; "label" := JStr "individual" ]};
     "simJ" := v ]}.

(** Three results with the scores 1.0, [nan] and 2.0. *)
Definition example_nan_results : list dict :=
  [example_scored "MONDO:1" (JFloat (Qc_of_Z 1));
   example_scored "MONDO:2" JNaN;
   example_scored "MONDO:3" (JFloat (Qc_of_Z 2))].

(** Seven results with the scores 1.0, 1.0, [nan], 1.0, 1.0, 1.0 and 2.0. *)
Definition example_nan_ties : list dict :=
  [example_scored "MONDO:0" (JFloat (Qc_of_Z 1));
   example_scored "MONDO:1" (JFloat (Qc_of_Z 1));
   example_scored "MONDO:2" JNaN;
   example_scored "MONDO:3" (JFloat (Qc_of_Z 1));
   example_scored "MONDO:4" (JFloat (Qc_of_Z 1));
   example_scored "MONDO:5" (JFloat (Qc_of_Z 1));
   example_scored "MONDO:6" (JFloat (Qc_of_Z 2))].

(** The ranked list of [example_nan_ties]. *)
Definition example_nan_ties_ranked : list dict :=
  zip_with set_rank
    [example_scored "MONDO:1" (JFloat (Qc_of_Z 1));
     example_scored "MONDO:2" JNaN;
     example_scored "MONDO:6" (JFloat (Qc_of_Z 2));
     example_scored "MONDO:0" (JFloat (Qc_of_Z 1));
     example_scored "MONDO:3" (JFloat (Qc_of_Z 1));
     example_scored "MONDO:4" (JFloat (Qc_of_Z 1));
     example_scored "MONDO:5" (JFloat (Qc_of_Z 1))]
    [1; 1; 1; 2; 2; 2; 2]%Z.

(** The identifiers of a list of results. *)
Definition result_ids (results : list dict) : list (res json) :=
  (λ r, j_field r "id") <$> results.

(** ** Numbers *)

Lemma Qc_ltb_lt (x y : Qc) : Qc_ltb x y = true ↔ (x < y)%Qc.
Proof. unfold Qc_ltb, Qclt, Qlt. apply Z.ltb_lt. Qed.

Lemma Qc_ltb_ge (x y : Qc) : Qc_ltb x y = false ↔ (y ≤ x)%Qc.
Proof.
  rewrite <- not_true_iff_false, Qc_ltb_lt. split.
  - apply Qcnot_lt_le.
  - intros Hle Hlt. exact (Qcle_not_lt _ _ Hle Hlt).
Qed.

Lemma Qc_ltb_irrefl (x : Qc) : Qc_ltb x x = false.
Proof. apply Qc_ltb_ge, Qcle_refl. Qed.

Lemma Qc_ltb_asym (x y : Qc) : Qc_ltb x y = true → Qc_ltb y x = false.
Proof.
  unfold Qc_ltb. rewrite Z.ltb_lt, Z.ltb_ge. lia.
Qed.

(** ** The order of Python *)

Lemma num_lt_asym (x y : pynum) : num_lt x y = true → num_lt y x = false.
Proof.
  destruct x as [a| |[]], y as [b| |[]]; simpl; try done. apply Qc_ltb_asym.
Qed.

Lemma num_lt_irrefl (x : pynum) : num_lt x x = false.
Proof. destruct x as [a| |[]]; simpl; try done. apply Qc_ltb_irrefl. Qed.

(** Among the numbers other than [nan], [<] is a strict total order. *)
Lemma num_lt_negtrans (x y z : pynum) :
  x ≠ NaN → y ≠ NaN → z ≠ NaN →
  num_lt x y = false → num_lt y z = false → num_lt x z = false.
Proof.
  destruct x as [a| |[]], y as [b| |[]], z as [c| |[]]; simpl; try done.
  rewrite !Qc_ltb_ge. intros _ _ _ H1 H2. by eapply Qcle_trans.
Qed.

Lemma num_lt_antisym (x y : pynum) :
  x ≠ NaN → y ≠ NaN → num_lt x y = false → num_lt y x = false → x = y.
Proof.
  destruct x as [a| |[]], y as [b| |[]]; simpl; try done.
  rewrite !Qc_ltb_ge. intros _ _ H1 H2. f_equal. by apply Qcle_antisym.
Qed.

Lemma num_le_lt (x y : pynum) :
  x ≠ NaN → y ≠ NaN → num_le x y = negb (num_lt y x).
Proof. by destruct x as [a| |[]], y as [b| |[]]. Qed.

Lemma string_ltb_asym (s t : string) : String.ltb s t = true → String.ltb t s = false.
Proof.
  unfold String.ltb. rewrite (String.compare_antisym t s).
  by destruct (String.compare s t).
Qed.

Lemma py_lt_asym (a b : json) : py_lt a b = Ok true → py_lt b a = Ok false.
Proof.
  unfold py_lt.
  destruct (to_num a) as [x|] eqn:Ea, (to_num b) as [y|] eqn:Eb.
  - intros [= H]. by rewrite (num_lt_asym _ _ H).
  - destruct a, b; try done.
  - destruct a, b; try done.
  - destruct a, b; try done. intros [= H]. by rewrite (string_ltb_asym _ _ H).
Qed.

Lemma py_lt_irrefl (a : json) (b : bool) : py_lt a a = Ok b → b = false.
Proof.
  intros H. destruct b; [|done].
  pose proof (py_lt_asym _ _ H). congruence.
Qed.

Lemma py_lt_Raise (a b : json) (e : exn) : py_lt a b = Raise e → e = TypeError.
Proof.
  unfold py_lt. destruct (to_num a), (to_num b); try done;
    destruct a, b; try done; by intros [= <-].
Qed.

Lemma py_lt_num (a b : json) (x y : pynum) :
  to_num a = Some x → to_num b = Some y → py_lt a b = Ok (num_lt x y).
Proof. unfold py_lt. by intros -> ->. Qed.

Lemma as_number_to_num (v : json) (q : Qc) :
  as_number v = Ok q → to_num v = Some (Fin q).
Proof. destruct v; try done; simpl; by intros [= <-]. Qed.

Lemma py_lt_number (a b : json) (qa qb : Qc) :
  as_number a = Ok qa → as_number b = Ok qb → py_lt a b = Ok (Qc_ltb qa qb).
Proof.
  intros Ha%as_number_to_num Hb%as_number_to_num.
  by rewrite (py_lt_num _ _ _ _ Ha Hb).
Qed.

(** ** The error monad *)

Ltac res_unfold := unfold mbind, res_bind, mret, res_ret in *.

Lemma mapM_res_Ok {A B : Type} (f : A → res B) (l : list A) (ks : list B) :
  mapM f l = Ok ks ↔ Forall2 (λ x k, f x = Ok k) l ks.
Proof.
  revert ks. induction l as [|x l IH]; intros ks; simpl; res_unfold.
  - split; [intros [= <-]; constructor | by inversion 1].
  - destruct (f x) as [y|e] eqn:Ef.
    + destruct (mapM f l) as [k|e] eqn:Em.
      * split.
        -- intros [= <-]. constructor; [done|]. by apply IH.
        -- inversion 1 as [|? y' ? k' Hy Hk]; subst.
           apply IH in Hk. congruence.
      * split; [done|].
        inversion 1 as [|? y' ? k' Hy Hk]; subst. apply IH in Hk. done.
    + split; [done|]. inversion 1; congruence.
Qed.

Lemma mapM_res_total {A B : Type} (f : A → res B) (l : list A) :
  Forall (λ x, ∃ k, f x = Ok k) l → ∃ ks, mapM f l = Ok ks.
Proof.
  induction 1 as [|x l [k Hk] _ [ks Hks]].
  - by exists [].
  - exists (k :: ks). apply mapM_res_Ok. constructor; [done|]. by apply mapM_res_Ok.
Qed.

Lemma mapM_res_Raise {A B : Type} (f : A → res B) (l : list A) (e : exn) :
  mapM f l = Raise e → ∃ x, x ∈ l ∧ f x = Raise e.
Proof.
  induction l as [|x l IH]; simpl; res_unfold; [done|].
  destruct (f x) as [y|e'] eqn:Ef.
  - destruct (mapM f l) as [k|e'] eqn:Em; [done|].
    intros [= ->]. destruct IH as (x' & Hx' & Hf); [done|].
    exists x'. split; [by right|done].
  - intros [= ->]. exists x. split; [by left|done].
Qed.

Lemma getitem_Raise (d : dict) (k : string) (e : exn) :
  getitem d k = Raise e → e = KeyError.
Proof. unfold getitem. destruct (d !! k); [done|]. by intros [= <-]. Qed.

Lemma StronglySorted_lookup {A : Type} (R : relation A) (l : list A) i j x y :
  StronglySorted R l → (i < j)%nat → l !! i = Some x → l !! j = Some y → R x y.
Proof.
  intros Hs. revert i j. induction Hs as [|z l Hs IH Hz]; intros i j Hij Hi Hj.
  - by rewrite lookup_nil in Hi.
  - destruct j as [|j]; [lia|]. destruct i as [|i]; simpl in *.
    + simplify_eq. rewrite Forall_forall in Hz. apply Hz.
      by eapply list_elem_of_lookup_2.
    + eapply (IH i j); [lia|done..].
Qed.

(** ** The sort of CPython, whatever the comparison *)

Section ListSortFacts.
Context {K A : Type} (lt : K → K → res bool).
Implicit Types (x pivot : K * A) (l s rest : list (K * A)).

Lemma run_ascending_app prev l pr :
  run_ascending lt prev l = Ok pr → l = pr.1 ++ pr.2.
Proof.
  revert prev pr. induction l as [|x l IH]; intros prev pr; simpl; res_unfold.
  - by intros [= <-].
  - destruct (lt x.1 prev.1) as [[]|]; [by intros [= <-]| |done].
    destruct (run_ascending lt x l) as [pr'|] eqn:E; [|done].
    intros [= <-]. simpl. f_equal. by apply (IH x).
Qed.

Lemma run_descending_app prev l pr :
  run_descending lt prev l = Ok pr → l = pr.1 ++ pr.2.
Proof.
  revert prev pr. induction l as [|x l IH]; intros prev pr; simpl; res_unfold.
  - by intros [= <-].
  - destruct (lt x.1 prev.1) as [[]|]; [|by intros [= <-]|done].
    destruct (run_descending lt x l) as [pr'|] eqn:E; [|done].
    intros [= <-]. simpl. f_equal. by apply (IH x).
Qed.

Lemma count_run_perm l pr : count_run lt l = Ok pr → pr.1 ++ pr.2 ≡ₚ l.
Proof.
  unfold count_run. res_unfold.
  destruct l as [|x0 [|x1 l]]; try by intros [= <-]; rewrite app_nil_r.
  destruct (lt x1.1 x0.1) as [[]|]; [| |done].
  - destruct (run_descending lt x1 l) as [pr'|] eqn:E; [|done].
    intros [= <-]. simpl. rewrite reverse_Permutation. simpl.
    by rewrite <- (run_descending_app _ _ _ E).
  - destruct (run_ascending lt x1 l) as [pr'|] eqn:E; [|done].
    intros [= <-]. simpl.
    by rewrite <- (run_ascending_app _ _ _ E).
Qed.

Lemma binary_insert_perm s pivot s' :
  binary_insert lt s pivot = Ok s' → s' ≡ₚ pivot :: s.
Proof.
  unfold binary_insert. res_unfold.
  destruct (bisect lt pivot s 0 (length s) (length s)) as [i|]; [|done].
  intros [= <-]. rewrite <- Permutation_middle. by rewrite take_drop.
Qed.

Lemma binarysort_perm s rest s' :
  binarysort lt s rest = Ok s' → s' ≡ₚ s ++ rest.
Proof.
  revert s. induction rest as [|pivot rest IH]; intros s; simpl; res_unfold.
  - intros [= <-]. by rewrite app_nil_r.
  - destruct (binary_insert lt s pivot) as [s1|] eqn:E; [|done].
    intros H. rewrite (IH _ H), (binary_insert_perm _ _ _ E).
    by rewrite <- Permutation_middle.
Qed.

Lemma list_sort_perm l s : list_sort lt l = Ok s → s ≡ₚ l.
Proof.
  unfold list_sort. res_unfold.
  destruct l as [|x0 [|x1 l]]; try by intros [= <-].
  destruct (count_run lt (x0 :: x1 :: l)) as [pr|] eqn:E; [|done].
  intros H. by rewrite (binarysort_perm _ _ _ H), (count_run_perm _ _ E).
Qed.

Lemma run_ascending_Raise prev l e :
  run_ascending lt prev l = Raise e → lt_raises lt e.
Proof.
  revert prev. induction l as [|x l IH]; intros prev; simpl; res_unfold; [done|].
  destruct (lt x.1 prev.1) as [[]|e'] eqn:E; [done| |intros [= <-]; by eexists _, _].
  destruct (run_ascending lt x l) eqn:E'; [done|]. intros [= <-]. by eapply IH.
Qed.

Lemma run_descending_Raise prev l e :
  run_descending lt prev l = Raise e → lt_raises lt e.
Proof.
  revert prev. induction l as [|x l IH]; intros prev; simpl; res_unfold; [done|].
  destruct (lt x.1 prev.1) as [[]|e'] eqn:E; [|done|intros [= <-]; by eexists _, _].
  destruct (run_descending lt x l) eqn:E'; [done|]. intros [= <-]. by eapply IH.
Qed.

Lemma bisect_Raise pivot s (lo hi fuel : nat) e :
  bisect lt pivot s lo hi fuel = Raise e → lt_raises lt e.
Proof.
  revert lo hi. induction fuel as [|fuel IH]; intros lo hi; simpl; res_unfold; [done|].
  destruct (lo <? hi)%nat; [|done].
  destruct (s !! _) as [x|]; [|done].
  destruct (lt pivot.1 x.1) as [[]|e'] eqn:E; [apply IH|apply IH|].
  intros [= <-]. by eexists _, _.
Qed.

Lemma list_sort_Raise l e : list_sort lt l = Raise e → lt_raises lt e.
Proof.
  unfold list_sort, count_run. res_unfold.
  destruct l as [|x0 [|x1 l]]; try done.
  destruct (lt x1.1 x0.1) as [[]|e'] eqn:E; [| |intros [= <-]; by eexists _, _].
  - destruct (run_descending lt x1 l) as [pr|] eqn:E';
      [|intros [= <-]; by eapply run_descending_Raise].
    generalize (reverse (x0 :: x1 :: pr.1)). generalize pr.2.
    clear. intros rest. induction rest as [|pivot rest IH]; intros s; simpl; [done|].
    unfold binary_insert. res_unfold.
    destruct (bisect lt pivot s 0 (length s) (length s)) eqn:E;
      [apply IH|intros [= <-]; by eapply bisect_Raise].
  - destruct (run_ascending lt x1 l) as [pr|] eqn:E';
      [|intros [= <-]; by eapply run_ascending_Raise].
    generalize (x0 :: x1 :: pr.1). generalize pr.2.
    clear. intros rest. induction rest as [|pivot rest IH]; intros s; simpl; [done|].
    unfold binary_insert. res_unfold.
    destruct (bisect lt pivot s 0 (length s) (length s)) eqn:E;
      [apply IH|intros [= <-]; by eapply bisect_Raise].
Qed.

End ListSortFacts.

Lemma Sorted_mono {A : Type} (R1 R2 : relation A) (l : list A) :
  (∀ a b, R1 a b → R2 a b) → Sorted R1 l → Sorted R2 l.
Proof.
  intros HR. induction 1 as [|x l Hs IH Hx]; constructor; [done|].
  destruct Hx; constructor; auto.
Qed.

Lemma Sorted_insert_at {A : Type} (R : relation A) (ks : list A) (k : A) (i : nat) :
  Sorted R ks →
  (i = 0%nat ∨ ∃ x, ks !! (i - 1)%nat = Some x ∧ R x k) →
  (i = length ks ∨ ∃ y, ks !! i = Some y ∧ R k y) →
  (i ≤ length ks)%nat →
  Sorted R (take i ks ++ k :: drop i ks).
Proof.
  intros Hs. revert i. induction Hs as [|a ks Hs IH Ha]; intros i Hl Hr Hi.
  - destruct i; [|simpl in Hi; lia]. simpl. repeat constructor.
  - destruct i as [|i]; simpl.
    + constructor; [by constructor|].
      destruct Hr as [Hr|(y & Hy & HR)]; [done|]. simplify_eq/=. by constructor.
    + destruct Hl as [Hl|(x & Hx & HR)]; [done|].
      replace (S i - 1)%nat with i in Hx by lia.
      constructor.
      * apply IH.
        -- destruct i as [|i]; [by left|right]. exists x.
           replace (S i - 1)%nat with i by lia. done.
        -- destruct Hr as [Hr|Hr]; [left; simpl in Hr; lia|by right].
        -- simpl in Hi. lia.
      * destruct i as [|i]; simpl.
        -- simplify_eq/=. by constructor.
        -- destruct ks as [|b ks]; [simpl in Hi; lia|]. simpl.
           inversion Ha; subst. by constructor.
Qed.

Section NoDescent.
Context {K A : Type} (lt : K → K → res bool).
Hypothesis lt_asym : ∀ a b, lt a b = Ok true → lt b a = Ok false.
Implicit Types (x pivot prev : K * A) (l s rest : list (K * A)).

Lemma run_ascending_sorted prev l pr :
  run_ascending lt prev l = Ok pr → Sorted (no_descent lt) (prev.1 :: pr.1.*1).
Proof.
  revert prev pr. induction l as [|x l IH]; intros prev pr; simpl; res_unfold.
  - intros [= <-]. repeat constructor.
  - destruct (lt x.1 prev.1) as [[]|] eqn:E; [|  |done].
    + intros [= <-]. repeat constructor.
    + destruct (run_ascending lt x l) as [pr'|] eqn:E'; [|done].
      intros [= <-]. simpl. constructor; [by eapply IH|]. by constructor.
Qed.

Lemma run_descending_sorted prev l pr :
  run_descending lt prev l = Ok pr →
  Sorted (λ a b, lt b a = Ok true) (prev.1 :: pr.1.*1).
Proof.
  revert prev pr. induction l as [|x l IH]; intros prev pr; simpl; res_unfold.
  - intros [= <-]. repeat constructor.
  - destruct (lt x.1 prev.1) as [[]|] eqn:E; [|  |done].
    + destruct (run_descending lt x l) as [pr'|] eqn:E'; [|done].
      intros [= <-]. simpl. constructor; [by eapply IH|]. by constructor.
    + intros [= <-]. repeat constructor.
Qed.

Lemma count_run_sorted l pr :
  count_run lt l = Ok pr → Sorted (no_descent lt) pr.1.*1.
Proof.
  unfold count_run. res_unfold.
  destruct l as [|x0 [|x1 l]]; try (intros [= <-]; repeat constructor).
  destruct (lt x1.1 x0.1) as [[]|] eqn:E0; [| |done].
  - destruct (run_descending lt x1 l) as [pr'|] eqn:E; [|done].
    intros [= <-]. simpl fst. rewrite fmap_reverse.
    apply (Sorted_mono (flip (λ a b, lt b a = Ok true))); [intros a b; apply lt_asym|].
    apply Sorted_reverse. simpl.
    constructor; [by eapply run_descending_sorted|]. by constructor.
  - destruct (run_ascending lt x1 l) as [pr'|] eqn:E; [|done].
    intros [= <-]. simpl.
    constructor; [by eapply run_ascending_sorted|]. by constructor.
Qed.

Lemma bisect_S pivot s (lo hi fuel : nat) :
  bisect lt pivot s lo hi (S fuel)
  = if (lo <? hi)%nat then
      match s !! (lo + (hi - lo) / 2)%nat with
      | Some x =>
        smaller ← lt pivot.1 x.1;
        if smaller : bool then bisect lt pivot s lo (lo + (hi - lo) / 2) fuel
        else bisect lt pivot s (S (lo + (hi - lo) / 2)) hi fuel
      | None => mret lo
      end
    else mret lo.
Proof. reflexivity. Qed.

Lemma bisect_boundary pivot s (lo hi fuel i : nat) :
  bisect lt pivot s lo hi fuel = Ok i →
  (lo ≤ hi ≤ length s)%nat → (hi - lo ≤ fuel)%nat →
  (lo = 0%nat ∨ ∃ x, s !! (lo - 1)%nat = Some x ∧ lt pivot.1 x.1 = Ok false) →
  (hi = length s ∨ ∃ y, s !! hi = Some y ∧ lt pivot.1 y.1 = Ok true) →
  (i ≤ length s)%nat ∧
  (i = 0%nat ∨ ∃ x, s !! (i - 1)%nat = Some x ∧ lt pivot.1 x.1 = Ok false) ∧
  (i = length s ∨ ∃ y, s !! i = Some y ∧ lt pivot.1 y.1 = Ok true).
Proof.
  revert lo hi. induction fuel as [|fuel IH]; intros lo hi;
    [simpl|rewrite bisect_S]; res_unfold.
  - intros [= <-] Hb Hf Hl Hr. assert (lo = hi) as -> by lia. split; [lia|done].
  - destruct (lo <? hi)%nat eqn:Elt.
    + apply Nat.ltb_lt in Elt.
      assert ((hi - lo) / 2 < hi - lo)%nat as Hhalf.
      { apply Nat.div_lt; lia. }
      set (p := (lo + (hi - lo) / 2)%nat) in *.
      destruct (s !! p) as [x|] eqn:Ep.
      * destruct (lt pivot.1 x.1) as [[]|] eqn:E; [| |done].
        -- intros Hi Hb Hf Hl Hr. apply (IH lo p Hi); [lia|lia|done|].
           right. by exists x.
        -- intros Hi Hb Hf Hl Hr. apply (IH (S p) hi Hi); [lia|lia| |done].
           right. exists x. by replace (S p - 1)%nat with p by lia.
      * intros _ Hb. apply lookup_ge_None in Ep. lia.
    + apply Nat.ltb_ge in Elt.
      intros [= <-] Hb Hf Hl Hr. assert (lo = hi) as -> by lia. split; [lia|done].
Qed.

Lemma binary_insert_sorted s pivot s' :
  Sorted (no_descent lt) s.*1 →
  binary_insert lt s pivot = Ok s' →
  Sorted (no_descent lt) s'.*1.
Proof.
  unfold binary_insert. res_unfold. intros Hs.
  destruct (bisect lt pivot s 0 (length s) (length s)) as [i|] eqn:E; [|done].
  intros [= <-].
  destruct (bisect_boundary _ _ _ _ _ _ E) as (Hi & Hl & Hr); [lia|lia|by left|by left|].
  rewrite fmap_app, fmap_cons, fmap_take, fmap_drop.
  apply Sorted_insert_at; [done| | |by rewrite length_fmap].
  - destruct Hl as [Hl|(x & Hx & Hlt)]; [by left|right].
    exists x.1. by rewrite list_lookup_fmap, Hx.
  - destruct Hr as [Hr|(y & Hy & Hlt)]; [left; by rewrite length_fmap|right].
    exists y.1. rewrite list_lookup_fmap, Hy. split; [done|].
    by apply lt_asym.
Qed.

Lemma binarysort_sorted s rest s' :
  Sorted (no_descent lt) s.*1 →
  binarysort lt s rest = Ok s' →
  Sorted (no_descent lt) s'.*1.
Proof.
  revert s. induction rest as [|pivot rest IH]; intros s Hs; simpl; res_unfold.
  - by intros [= <-].
  - destruct (binary_insert lt s pivot) as [s1|] eqn:E; [|done].
    apply IH. by eapply binary_insert_sorted.
Qed.

Lemma list_sort_sorted l s :
  list_sort lt l = Ok s → Sorted (no_descent lt) s.*1.
Proof.
  unfold list_sort. res_unfold.
  destruct l as [|x0 [|x1 l]]; try (intros [= <-]; repeat constructor).
  destruct (count_run lt (x0 :: x1 :: l)) as [pr|] eqn:E; [|done].
  apply binarysort_sorted. by eapply count_run_sorted.
Qed.



End NoDescent.


(** ** The sort on keys that the comparison orders

    On keys that [lt] compares without raising, and on which "not smaller"
    is transitive, the sort returns, its result is in order throughout, and
    elements with tied keys keep their order. *)

Lemma filter_Forall_not {A : Type} (P : A → Prop) `{∀ x, Decision (P x)} (l : list A) :
  Forall (λ x, ¬ P x) l → filter P l = [].
Proof.
  induction 1 as [|x l Hx Hl IH]; [done|].
  by rewrite filter_cons, decide_False.
Qed.

Lemma filter_ext_Forall {A : Type} (P Q : A → Prop)
    `{∀ x, Decision (P x)} `{∀ x, Decision (Q x)} (l : list A) :
  Forall (λ x, P x ↔ Q x) l → filter P l = filter Q l.
Proof.
  induction 1 as [|x l Hx Hl IH]; [done|].
  rewrite !filter_cons, IH.
  destruct (decide (P x)), (decide (Q x)); tauto.
Qed.

(** A list without two elements of [P] in the relation [R], all of whose
    pairs in order are in [R], holds at most one element of [P]: its
    reversal filters as the list does. *)
Lemma filter_reverse_once {A : Type} (R : relation A) (P : A → Prop)
    `{∀ x, Decision (P x)} (l : list A) :
  (∀ x y, x ∈ l → y ∈ l → R x y → P x → P y → False) →
  StronglySorted R l → filter P (reverse l) = filter P l.
Proof.
  intros HR Hs. induction Hs as [|x l Hs IH Hx]; [done|].
  rewrite reverse_cons, filter_app, IH, !filter_cons, filter_nil.
  2:{ intros a b Ha Hb. apply HR; by right. }
  destruct (decide (P x)) as [Hp|Hp].
  - rewrite (filter_Forall_not P l); [done|].
    rewrite Forall_forall in Hx. apply Forall_forall. intros y Hy Hpy.
    apply (HR x y); [by left|by right|by apply Hx|done..].
  - by rewrite app_nil_r.
Qed.

Section WeakOrder.
Context {K A : Type} (lt : K → K → res bool) (good : K → Prop).
Hypothesis lt_returns : ∀ a b, good a → good b → ∃ c, lt a b = Ok c.
Hypothesis lt_asym : ∀ a b, lt a b = Ok true → lt b a = Ok false.
Hypothesis lt_negtrans : ∀ a b c, good a → good b → good c →
  lt a b = Ok false → lt b c = Ok false → lt a c = Ok false.
Implicit Types (x pivot prev : K * A) (l s rest : list (K * A)).

Lemma lt_trans a b c :
  good a → good b → good c → lt a b = Ok true → lt b c = Ok true → lt a c = Ok true.
Proof.
  intros Ha Hb Hc Hab Hbc.
  destruct (lt_returns a c Ha Hc) as [[] Hac]; [done|].
  pose proof (lt_negtrans b a c Hb Ha Hc (lt_asym _ _ Hab) Hac). congruence.
Qed.

Lemma tied_refl a : good a → tied lt a a.
Proof.
  intros Ha. destruct (lt_returns a a Ha Ha) as [[] H]; [|done].
  pose proof (lt_asym _ _ H). congruence.
Qed.

Lemma tied_trans k a b : good k → good a → good b →
  tied lt k a → tied lt k b → tied lt a b.
Proof.
  intros Hk Ha Hb [Hka Hak] [Hkb Hbk]. split; by eapply (lt_negtrans _ k).
Qed.

Lemma Sorted_StronglySorted_good (ks : list K) :
  Forall good ks → Sorted (no_descent lt) ks → StronglySorted (no_descent lt) ks.
Proof.
  intros Hg Hs. induction Hs as [|a ks Hs IH Ha]; [constructor|].
  apply Forall_cons in Hg as [Hga Hg]. specialize (IH Hg).
  constructor; [done|].
  destruct Ha as [|b ks Hab]; [constructor|].
  apply Forall_cons in Hg as [Hgb Hg].
  apply StronglySorted_cons in IH as [Hb _].
  constructor; [done|].
  rewrite Forall_forall in Hb, Hg. apply Forall_forall. intros c Hc.
  unfold no_descent in *. apply (lt_negtrans c b a); auto.
Qed.

Lemma run_ascending_returns prev l :
  good prev.1 → Forall (λ x, good x.1) l → ∃ pr, run_ascending lt prev l = Ok pr.
Proof.
  intros Hprev Hl. revert prev Hprev.
  induction Hl as [|x l Hx Hl IH]; intros prev Hprev; simpl; res_unfold; [by eexists|].
  destruct (lt_returns x.1 prev.1 Hx Hprev) as [[] ->]; [by eexists|].
  destruct (IH x Hx) as [pr ->]. by eexists.
Qed.

Lemma run_descending_returns prev l :
  good prev.1 → Forall (λ x, good x.1) l → ∃ pr, run_descending lt prev l = Ok pr.
Proof.
  intros Hprev Hl. revert prev Hprev.
  induction Hl as [|x l Hx Hl IH]; intros prev Hprev; simpl; res_unfold; [by eexists|].
  destruct (lt_returns x.1 prev.1 Hx Hprev) as [[] ->]; [|by eexists].
  destruct (IH x Hx) as [pr ->]. by eexists.
Qed.

Lemma bisect_returns pivot s (lo hi fuel : nat) :
  good pivot.1 → Forall (λ x, good x.1) s → ∃ i, bisect lt pivot s lo hi fuel = Ok i.
Proof.
  intros Hpivot Hs. revert lo hi.
  induction fuel as [|fuel IH]; intros lo hi; [by eexists|].
  rewrite bisect_S. res_unfold.
  destruct (lo <? hi)%nat; [|by eexists].
  destruct (s !! _) as [x|] eqn:Ex; [|by eexists].
  assert (good x.1) as Hx.
  { rewrite Forall_forall in Hs. apply Hs. by eapply list_elem_of_lookup_2. }
  destruct (lt_returns pivot.1 x.1 Hpivot Hx) as [[] ->]; apply IH.
Qed.

Lemma binarysort_returns s rest :
  Forall (λ x, good x.1) s → Forall (λ x, good x.1) rest →
  ∃ s', binarysort lt s rest = Ok s'.
Proof.
  intros Hs Hrest. revert s Hs.
  induction Hrest as [|pivot rest Hpivot Hrest IH]; intros s Hs; simpl; [by eexists|].
  destruct (bisect_returns pivot s 0 (length s) (length s) Hpivot Hs) as [i Hi].
  unfold binary_insert. rewrite Hi. res_unfold. apply IH.
  rewrite <- (take_drop i s) in Hs. apply Forall_app in Hs as [H1 H2].
  apply Forall_app. split; [done|]. by constructor.
Qed.

(** On good keys the sort returns. *)
Lemma list_sort_returns l :
  Forall (λ x, good x.1) l → ∃ s, list_sort lt l = Ok s.
Proof.
  intros Hl. unfold list_sort, count_run. res_unfold.
  destruct l as [|x0 [|x1 l]]; [by eexists..|].
  apply Forall_cons in Hl as [H0 Hl]. apply Forall_cons in Hl as [H1 Hl].
  destruct (lt_returns x1.1 x0.1 H1 H0) as [[] ->].
  - destruct (run_descending_returns x1 l H1 Hl) as [pr Epr]. rewrite Epr.
    pose proof (run_descending_app _ _ _ _ Epr) as Happ.
    rewrite Happ in Hl. apply Forall_app in Hl as [Hl1 Hl2].
    apply binarysort_returns; [|done]. simpl.
    rewrite reverse_Permutation. by repeat constructor.
  - destruct (run_ascending_returns x1 l H1 Hl) as [pr Epr]. rewrite Epr.
    pose proof (run_ascending_app _ _ _ _ Epr) as Happ.
    rewrite Happ in Hl. apply Forall_app in Hl as [Hl1 Hl2].
    apply binarysort_returns; [|done]. simpl. by repeat constructor.
Qed.

(** On good keys the result of the sort is in order throughout. *)
Lemma list_sort_strongly_sorted l s :
  Forall (λ x, good x.1) l → list_sort lt l = Ok s →
  StronglySorted (no_descent lt) s.*1.
Proof.
  intros Hl Hs. apply Sorted_StronglySorted_good.
  - rewrite Forall_fmap. by rewrite (list_sort_perm _ _ _ Hs).
  - by eapply list_sort_sorted.
Qed.

(** The place that the binary search finds has the keys not above the
    pivot in front of it and the keys above the pivot behind it. *)
Lemma bisect_place pivot s (i : nat) :
  good pivot.1 → Forall (λ x, good x.1) s →
  StronglySorted (no_descent lt) s.*1 →
  bisect lt pivot s 0 (length s) (length s) = Ok i →
  (i ≤ length s)%nat ∧
  Forall (λ y, lt pivot.1 y.1 = Ok true) (drop i s).
Proof.
  intros Hpivot Hgood Hs Hi.
  destruct (bisect_boundary lt _ _ _ _ _ _ Hi) as (Hle & _ & Hr);
    [lia|lia|by left|by left|].
  split; [done|].
  destruct Hr as [->|(y0 & Hy0 & Hlt0)]; [by rewrite drop_all|].
  apply Forall_forall. intros y Hy.
  apply list_elem_of_lookup in Hy as [d Hd]. rewrite lookup_drop in Hd.
  assert (good y.1) as Hgy.
  { rewrite Forall_forall in Hgood. apply Hgood. by eapply list_elem_of_lookup_2. }
  assert (good y0.1) as Hgy0.
  { rewrite Forall_forall in Hgood. apply Hgood. by eapply list_elem_of_lookup_2. }
  destruct d as [|d].
  { rewrite Nat.add_0_r in Hd. congruence. }
  assert (no_descent lt y0.1 y.1) as Hnd.
  { apply (StronglySorted_lookup _ s.*1 i (i + S d) y0.1 y.1 Hs); [lia|..];
      by rewrite list_lookup_fmap, ?Hy0, ?Hd. }
  destruct (lt_returns pivot.1 y.1 Hpivot Hgy) as [[] Hc]; [done|].
  pose proof (lt_negtrans _ _ _ Hpivot Hgy Hgy0 Hc Hnd). congruence.
Qed.

Section Stable.
Variable k : K.
Hypothesis good_k : good k.

Let P (x : K * A) : Prop := tied lt k x.1.

Lemma binary_insert_stable s pivot s' :
  good pivot.1 → Forall (λ x, good x.1) s →
  StronglySorted (no_descent lt) s.*1 →
  binary_insert lt s pivot = Ok s' →
  filter P s' = filter P (s ++ [pivot]).
Proof.
  intros Hpivot Hgood Hs. unfold binary_insert. res_unfold.
  destruct (bisect lt pivot s 0 (length s) (length s)) as [i|] eqn:E; [|done].
  intros [= <-].
  destruct (bisect_place _ _ _ Hpivot Hgood Hs E) as [Hi Hr].
  replace (s ++ [pivot]) with ((take i s ++ drop i s) ++ [pivot])
    by by rewrite take_drop.
  rewrite !filter_app, !filter_cons, filter_nil, <- app_assoc.
  destruct (decide (P pivot)) as [Hp|Hp]; [|by rewrite app_nil_r].
  rewrite (filter_Forall_not P (drop i s)); [done|].
  rewrite Forall_forall in Hr, Hgood. apply Forall_forall. intros y Hy Hpy.
  assert (y ∈ s) as Hys.
  { apply list_elem_of_lookup in Hy as [j Hj]. rewrite lookup_drop in Hj.
    by eapply list_elem_of_lookup_2. }
  destruct (tied_trans k pivot.1 y.1 good_k Hpivot (Hgood _ Hys) Hp Hpy) as [H1 _].
  specialize (Hr _ Hy). simpl in Hr. congruence.
Qed.

Lemma binarysort_stable s rest s' :
  Forall (λ x, good x.1) s → Forall (λ x, good x.1) rest →
  StronglySorted (no_descent lt) s.*1 →
  binarysort lt s rest = Ok s' →
  filter P s' = filter P (s ++ rest).
Proof.
  intros Hs Hrest. revert s Hs.
  induction Hrest as [|pivot rest Hpivot Hrest IH]; intros s Hs Hsorted; simpl;
    res_unfold.
  - intros [= <-]. by rewrite app_nil_r.
  - destruct (binary_insert lt s pivot) as [s1|] eqn:E; [|done].
    intros H1.
    assert (Forall (λ x, good x.1) s1) as Hs1.
    { rewrite (binary_insert_perm _ _ _ _ E). by constructor. }
    rewrite (IH s1 Hs1); [| |done].
    + rewrite filter_app, (binary_insert_stable _ _ _ Hpivot Hs Hsorted E).
      by rewrite <- filter_app, <- app_assoc.
    + apply Sorted_StronglySorted_good; [by rewrite Forall_fmap|].
      eapply binary_insert_sorted; [done| |done].
      by apply StronglySorted_Sorted.
Qed.

(** The sort keeps the order of the elements whose keys are tied. *)
Lemma list_sort_stable l s :
  Forall (λ x, good x.1) l → list_sort lt l = Ok s →
  filter P s = filter P l.
Proof.
  intros Hl. unfold list_sort. res_unfold.
  destruct l as [|x0 [|x1 l]]; try by intros [= <-].
  destruct (count_run lt (x0 :: x1 :: l)) as [pr|] eqn:E; [|done].
  intros Hs.
  pose proof (count_run_perm _ _ _ E) as Hperm.
  assert (Forall (λ x, good x.1) (pr.1 ++ pr.2)) as Hg by by rewrite Hperm.
  apply Forall_app in Hg as [Hg1 Hg2].
  rewrite (binarysort_stable _ _ _ Hg1 Hg2); [|  |done].
  2:{ apply Sorted_StronglySorted_good; [by rewrite Forall_fmap|].
      by eapply count_run_sorted. }
  clear Hs. unfold count_run in E. res_unfold.
  apply Forall_cons in Hl as [H0 Hl]. apply Forall_cons in Hl as [H1 Hl].
  destruct (lt x1.1 x0.1) as [[]|] eqn:E0; [| |done].
  - destruct (run_descending lt x1 l) as [pr'|] eqn:E'; [|done].
    injection E as <-. simpl in *.
    pose proof (run_descending_app _ _ _ _ E') as Happ.
    pose proof (run_descending_sorted lt _ _ _ E') as Hrun.
    rewrite filter_app.
    rewrite (filter_reverse_once (λ a b, lt b.1 a.1 = Ok true) P).
    + rewrite <- filter_app. simpl. by rewrite <- Happ.
    + intros a b Ha Hb Hab Hpa Hpb.
      assert (good a.1 ∧ good b.1) as [Hga Hgb].
      { rewrite reverse_Permutation in Hg1. rewrite Forall_forall in Hg1. auto. }
      destruct (tied_trans k a.1 b.1 good_k Hga Hgb Hpa Hpb) as [_ H]. congruence.
    + assert (Forall (λ x, good x.1) (x0 :: x1 :: pr'.1)) as Hg.
      { by rewrite reverse_Permutation in Hg1. }
      assert (Sorted (λ a b : K * A, lt b.1 a.1 = Ok true) (x0 :: x1 :: pr'.1)) as Hsd.
      { constructor; [|by constructor].
        clear -Hrun. revert Hrun. generalize x1. generalize pr'.1.
        intros r. induction r as [|y r IH]; intros x Hr; [repeat constructor|].
        simpl in Hr. inversion Hr as [|? ? Hr' Hhd]; subst.
        inversion Hhd; subst. constructor; [by apply IH|by constructor]. }
      clear -Hg Hsd lt_returns lt_asym lt_negtrans.
      induction Hsd as [|a r Hs IH Ha]; [constructor|].
      apply Forall_cons in Hg as [Hga Hg]. specialize (IH Hg).
      constructor; [done|].
      destruct Ha as [|b r Hab]; [constructor|].
      apply Forall_cons in Hg as [Hgb Hg].
      apply StronglySorted_cons in IH as [Hb _].
      constructor; [done|].
      rewrite Forall_forall in Hb, Hg. apply Forall_forall. intros c Hc.
      apply (lt_trans c.1 b.1 a.1); auto.
  - destruct (run_ascending lt x1 l) as [pr'|] eqn:E'; [|done].
    injection E as <-. simpl.
    by rewrite <- (run_ascending_app _ _ _ _ E').
Qed.

End Stable.

End WeakOrder.

(** ** The ranks of the loop *)

Lemma rank_list_length rank prev vs ks :
  rank_list rank prev vs = Ok ks → length ks = length vs.
Proof.
  revert rank prev ks. induction vs as [|v vs IH]; intros rank prev ks; simpl; res_unfold.
  - by intros [= <-].
  - destruct (py_lt v prev) as [c|]; [|done].
    destruct (rank_list _ v vs) as [ks'|] eqn:E; [|done].
    intros [= <-]. simpl. by rewrite (IH _ _ _ E).
Qed.

Lemma rank_list_cons rank prev v vs ks :
  rank_list rank prev (v :: vs) = Ok ks →
  ∃ c ks', py_lt v prev = Ok c ∧
           ks = (if c : bool then (rank + 1)%Z else rank) :: ks' ∧
           rank_list (if c : bool then (rank + 1)%Z else rank) v vs = Ok ks'.
Proof.
  simpl. res_unfold.
  destruct (py_lt v prev) as [c|]; [|done].
  destruct (rank_list _ v vs) as [ks'|] eqn:E; [|done].
  intros [= <-]. by exists c, ks'.
Qed.

(** The first rank is the initial one when the loop starts from the first
    score itself. *)
Lemma rank_list_first rank v vs ks :
  rank_list rank v (v :: vs) = Ok ks →
  ∃ ks', ks = rank :: ks' ∧ rank_list rank v vs = Ok ks'.
Proof.
  intros (c & ks' & Hc & -> & Hks)%rank_list_cons.
  apply py_lt_irrefl in Hc as ->. by exists ks'.
Qed.

Lemma rank_list_step rank prev vs ks i a b ka :
  rank_list rank prev vs = Ok ks →
  vs !! i = Some a → vs !! S i = Some b → ks !! i = Some ka →
  ∃ c, py_lt b a = Ok c ∧ ks !! S i = Some (if c : bool then (ka + 1)%Z else ka).
Proof.
  revert rank prev ks i. induction vs as [|v vs IH]; intros rank prev ks i Hks Ha Hb Hka.
  - by rewrite lookup_nil in Ha.
  - apply rank_list_cons in Hks as (c & ks' & Hc & -> & Hks').
    destruct i as [|i]; simpl in *.
    + simplify_eq. destruct vs as [|v' vs]; simplify_eq/=.
      apply rank_list_cons in Hks' as (c' & ks'' & Hc' & -> & _).
      by exists c'.
    + by eapply IH.
Qed.

Lemma rank_list_sorted rank prev vs ks :
  rank_list rank prev vs = Ok ks →
  Forall (λ k, (rank ≤ k)%Z) ks ∧ StronglySorted Z.le ks.
Proof.
  revert rank prev ks. induction vs as [|v vs IH]; intros rank prev ks Hks.
  - simpl in Hks. injection Hks as <-. split; constructor.
  - apply rank_list_cons in Hks as (c & ks' & Hc & -> & Hks').
    destruct (IH _ _ _ Hks') as [Hle Hs]. split.
    + constructor; [destruct c; lia|].
      eapply Forall_impl; [exact Hle|]. intros k Hk. simpl in Hk. destruct c; lia.
    + by constructor.
Qed.

Lemma rank_list_upper rank prev vs ks i k :
  rank_list rank prev vs = Ok ks → ks !! i = Some k → (k ≤ rank + Z.of_nat i + 1)%Z.
Proof.
  revert rank prev ks i. induction vs as [|v vs IH]; intros rank prev ks i Hks Hk.
  - simpl in Hks. injection Hks as <-. by rewrite lookup_nil in Hk.
  - apply rank_list_cons in Hks as (c & ks' & Hc & -> & Hks').
    destruct i as [|i]; simpl in Hk.
    + injection Hk as <-. destruct c; lia.
    + pose proof (IH _ _ _ _ Hks' Hk). destruct c; lia.
Qed.

Lemma rank_list_Raise rank prev vs e :
  rank_list rank prev vs = Raise e → e = TypeError.
Proof.
  revert rank prev. induction vs as [|v vs IH]; intros rank prev; simpl; res_unfold;
    [done|].
  destruct (py_lt v prev) as [c|e'] eqn:Ec.
  - destruct (rank_list _ v vs) as [ks'|e'] eqn:E; [done|].
    intros [= <-]. by eapply IH.
  - intros [= <-]. by eapply py_lt_Raise.
Qed.

(** On numbers the ranks are those of [dense_ranks]. *)
Lemma rank_list_numbers rank prev p vs xs :
  to_num prev = Some p →
  Forall2 (λ v x, to_num v = Some x) vs xs →
  rank_list rank prev vs = Ok (dense_ranks rank p xs).
Proof.
  intros Hp Hvs. revert rank prev p Hp.
  induction Hvs as [|v x vs xs Hv Hvs IH]; intros rank prev p Hp; simpl; [done|].
  rewrite (py_lt_num _ _ _ _ Hv Hp). res_unfold.
  by rewrite (IH _ v x Hv).
Qed.

Lemma dense_ranks_length rank prev scores :
  length (dense_ranks rank prev scores) = length scores.
Proof.
  revert rank prev. induction scores as [|s l IH]; intros; simpl; [done|].
  by rewrite IH.
Qed.

Lemma dense_ranks_step rank prev scores i s1 s2 k1 :
  scores !! i = Some s1 → scores !! S i = Some s2 →
  dense_ranks rank prev scores !! i = Some k1 →
  dense_ranks rank prev scores !! S i
  = Some (if num_lt s2 s1 then (k1 + 1)%Z else k1).
Proof.
  revert rank prev i. induction scores as [|s l IH]; intros rank prev i H1 H2 Hk.
  - by rewrite lookup_nil in H1.
  - destruct i as [|i]; simpl in *.
    + destruct l as [|s' l]; simplify_eq/=. done.
    + by eapply IH.
Qed.

(** Descending order of numbers: no number is lower than a later one. *)
Lemma descending_lookup (scores : list pynum) i j a b :
  StronglySorted (λ a b, num_lt a b = false) scores → (i < j)%nat →
  scores !! i = Some a → scores !! j = Some b → num_lt a b = false.
Proof.
  intros Hs Hij Hi Hj.
  exact (StronglySorted_lookup (λ a b, num_lt a b = false) scores i j a b Hs Hij Hi Hj).
Qed.

Lemma dense_ranks_tie rank prev scores d i s k :
  Forall (λ x, x ≠ NaN) scores →
  StronglySorted (λ a b, num_lt a b = false) scores →
  scores !! i = Some s → scores !! (i + d)%nat = Some s →
  dense_ranks rank prev scores !! i = Some k →
  dense_ranks rank prev scores !! (i + d)%nat = Some k.
Proof.
  intros Hnan Hsorted Hi. induction d as [|d IH]; intros Hd Hk.
  - by rewrite Nat.add_0_r.
  - replace (i + S d)%nat with (S (i + d)) in * by lia.
    destruct (lookup_lt_is_Some_2 scores (i + d)) as [s' Hs'].
    { apply lookup_lt_Some in Hd. lia. }
    assert (s' = s) as ->.
    { destruct d as [|d]; [rewrite Nat.add_0_r in Hs'; congruence|].
      rewrite Forall_forall in Hnan.
      apply num_lt_antisym.
      - apply Hnan. by eapply list_elem_of_lookup_2.
      - apply Hnan. by eapply list_elem_of_lookup_2.
      - apply (descending_lookup scores (i + S d) (S (i + S d))); [done|lia|done..].
      - apply (descending_lookup scores i (i + S d)); [done|lia|done..]. }
    rewrite (dense_ranks_step _ _ _ _ s s k Hs' Hd (IH Hs' Hk)).
    by rewrite num_lt_irrefl.
Qed.

Lemma dense_ranks_dense s0 scores :
  head scores = Some s0 →
  Forall (λ x, x ≠ NaN) scores →
  StronglySorted (λ a b, num_lt a b = false) scores →
  dense_ranking (zip scores (dense_ranks 1 s0 scores)).
Proof.
  intros Hhd Hnan Hs.
  assert (Htie : ∀ i j a b, (i ≤ j)%nat →
            zip scores (dense_ranks 1 s0 scores) !! i = Some a →
            zip scores (dense_ranks 1 s0 scores) !! j = Some b →
            a.1 = b.1 → a.2 = b.2).
  { intros i j [s k] [s' k'] Hij Hi Hj Heq; simpl in *. subst s'.
    apply lookup_zip_with_Some in Hi as (? & ? & [= <- <-] & Hi & Hki).
    apply lookup_zip_with_Some in Hj as (? & ? & [= <- <-] & Hj & Hkj).
    replace j with (i + (j - i))%nat in Hj, Hkj by lia.
    rewrite (dense_ranks_tie _ _ _ _ _ _ _ Hnan Hs Hi Hj Hki) in Hkj. congruence. }
  split; [|split; [|split]].
  - intros i j [s k] [s' k'] Hij Hi Hj; simpl.
    apply lookup_zip_with_Some in Hi as (? & ? & [= <- <-] & Hi & _).
    apply lookup_zip_with_Some in Hj as (? & ? & [= <- <-] & Hj & _).
    rewrite Forall_forall in Hnan.
    rewrite num_le_lt by (apply Hnan; by eapply list_elem_of_lookup_2).
    destruct (decide (i = j)) as [->|Hne].
    + simplify_eq. by rewrite num_lt_irrefl.
    + by rewrite (descending_lookup scores i j s s' Hs ltac:(lia) Hi Hj).
  - intros [s k]. destruct scores as [|s1 rest]; [done|].
    injection Hhd as ->. simpl. rewrite num_lt_irrefl. by intros [= _ <-].
  - intros i [s k] [s' k'] Hi Hj; simpl. split.
    + intros Heq. symmetry. by eapply (Htie i (S i) (s, k) (s', k')); [lia|..].
    + intros Hlt.
      apply lookup_zip_with_Some in Hi as (? & ? & [= <- <-] & Hi & Hki).
      apply lookup_zip_with_Some in Hj as (? & ? & [= <- <-] & Hj & Hkj).
      rewrite (dense_ranks_step _ _ _ _ _ _ _ Hi Hj Hki) in Hkj.
      rewrite Hlt in Hkj. congruence.
  - intros i j a b Hi Hj Heq.
    destruct (le_ge_dec i j).
    + by eapply (Htie i j).
    + symmetry. eapply (Htie j i); [lia|done..].
Qed.

(** ** The loop of the ranker *)

Lemma method2key_not_rank method : method2key method ≠ "rank".
Proof. by destruct method. Qed.

Lemma getitem_set_rank key result k :
  key ≠ "rank" → getitem (set_rank result k) key = getitem result key.
Proof. intros Hne. unfold getitem, set_rank. by rewrite lookup_insert_ne. Qed.

Lemma score_set_rank key result k :
  key ≠ "rank" → score key (set_rank result k) = score key result.
Proof. intros Hne. unfold score. by rewrite getitem_set_rank. Qed.

Lemma number_score_set_rank key result k :
  key ≠ "rank" → number_score key (set_rank result k) = number_score key result.
Proof. intros Hne. unfold number_score. by rewrite getitem_set_rank. Qed.

Lemma rank_of_set_rank result k : rank_of (set_rank result k) = Some k.
Proof. unfold rank_of, set_rank. by rewrite lookup_insert_eq. Qed.

(** The loop stores the ranks of [rank_list] for the scores of the list. *)
Lemma rank_loop_keys key rank prev l vs :
  key ≠ "rank" →
  Forall2 (λ r v, getitem r key = Ok v) l vs →
  rank_loop key rank prev l
  = ks ← rank_list rank prev vs; mret (zip_with set_rank l ks).
Proof.
  intros Hne Hl. revert rank prev.
  induction Hl as [|r v l vs Hr Hl IH]; intros rank prev; simpl; [done|].
  rewrite Hr. res_unfold.
  destruct (py_lt v prev) as [c|]; [|done].
  fold (set_rank r (if c then (rank + 1)%Z else rank)).
  rewrite getitem_set_rank, Hr by done.
  rewrite IH. by destruct (rank_list _ v vs).
Qed.

Lemma rank_loop_Raise key rank prev l e :
  rank_loop key rank prev l = Raise e → e = KeyError ∨ e = TypeError.
Proof.
  revert rank prev. induction l as [|r l IH]; intros rank prev; simpl; res_unfold;
    [done|].
  destruct (getitem r key) as [v|e1] eqn:E1;
    [|intros [= <-]; left; by eapply getitem_Raise].
  destruct (py_lt v prev) as [c|e2] eqn:E2;
    [|intros [= <-]; right; by eapply py_lt_Raise].
  destruct (getitem (<[_ := _]> r) key) as [v'|e3] eqn:E3;
    [|intros [= <-]; left; by eapply getitem_Raise].
  destruct (rank_loop key _ v' l) as [rest|e4] eqn:E4; [done|].
  intros [= <-]. by eapply IH.
Qed.

(** ** The ranker, as an equation *)

Lemma Forall2_zip_keys {A B : Type} (P : A → B → Prop) l vs :
  Forall2 P l vs → Forall (λ p, P p.2 p.1) (zip vs l).
Proof. induction 1; simpl; by constructor. Qed.

Lemma Forall_keys_Forall2 {A B : Type} (P : A → B → Prop) (ps : list (B * A)) :
  Forall (λ p, P p.2 p.1) ps ↔ Forall2 P ps.*2 ps.*1.
Proof.
  induction ps as [|p ps IH]; simpl.
  - split; constructor.
  - rewrite Forall_cons, Forall2_cons. by rewrite IH.
Qed.

(** The results in the order of [sorted], each with its key. *)
Lemma sorted_pairs_perm key (results : list dict) (vs : list json) (ps : list (json * dict)) :
  Forall2 (λ r v, getitem r key = Ok v) results vs →
  list_sort py_lt (reverse (zip vs results)) = Ok (reverse ps) →
  ps ≡ₚ zip vs results ∧
  ps.*2 ≡ₚ results ∧
  ps.*1 ≡ₚ vs ∧
  Forall2 (λ r v, getitem r key = Ok v) ps.*2 ps.*1.
Proof.
  intros Hvs Hs.
  assert (ps ≡ₚ zip vs results) as Hperm.
  { apply list_sort_perm in Hs. by rewrite !reverse_Permutation in Hs. }
  pose proof (Forall2_length _ _ _ Hvs) as Hlen.
  split; [done|]. split; [|split].
  - rewrite Hperm. by rewrite snd_zip by lia.
  - rewrite Hperm. by rewrite fst_zip by lia.
  - apply Forall_keys_Forall2. rewrite Hperm.
    by apply (Forall2_zip_keys (λ r v, getitem r key = Ok v)).
Qed.

Lemma rank_results_Ok results method out :
  _rank_results results method = Ok out ↔
  ∃ vs ps v0 ks,
    Forall2 (λ r v, getitem r (method2key method) = Ok v) results vs ∧
    list_sort py_lt (reverse (zip vs results)) = Ok (reverse ps) ∧
    head ps.*1 = Some v0 ∧
    rank_list 1 v0 ps.*1 = Ok ks ∧
    out = zip_with set_rank ps.*2 ks.
Proof.
  unfold _rank_results, sorted_reverse. split.
  - intros H.
    destruct (mapM _ results) as [vs|] eqn:Evs; [|done].
    apply mapM_res_Ok in Evs. res_unfold.
    destruct (list_sort py_lt _) as [s|] eqn:Es; [|done].
    rewrite <- (reverse_involutive s) in Es.
    destruct (sorted_pairs_perm _ _ _ _ Evs Es) as (_ & _ & _ & Hkeys).
    destruct (reverse s) as [|[v0 first] ps] eqn:Eps; [done|].
    rewrite fmap_cons in H. cbn [snd] in H.
    inversion Hkeys as [|? ? ? ? Hfirst Hkeys']; subst. simpl in Hfirst.
    rewrite Hfirst in H.
    rewrite (rank_loop_keys _ _ _ (first :: ps.*2) (v0 :: ps.*1)) in H;
      [|apply method2key_not_rank|by constructor].
    res_unfold.
    destruct (rank_list 1 v0 (v0 :: ps.*1)) as [ks|] eqn:Eks; [|done].
    injection H as <-.
    by exists vs, ((v0, first) :: ps), v0, ks.
  - intros (vs & ps & v0 & ks & Hvs & Hs & Hv0 & Hks & ->).
    rewrite (proj2 (mapM_res_Ok _ _ _) Hvs). res_unfold. rewrite Hs.
    rewrite reverse_involutive.
    destruct (sorted_pairs_perm _ _ _ _ Hvs Hs) as (_ & _ & _ & Hkeys).
    destruct ps as [|[v first] ps]; [done|].
    injection Hv0 as ->. rewrite fmap_cons. cbn [snd].
    inversion Hkeys as [|? ? ? ? Hfirst Hkeys']; subst. simpl in Hfirst.
    rewrite Hfirst.
    rewrite (rank_loop_keys _ _ _ (first :: ps.*2) (v0 :: ps.*1));
      [|apply method2key_not_rank|by constructor].
    rewrite fmap_cons in Hks. cbn [fst] in Hks.
    res_unfold. by rewrite Hks.
Qed.

(** The exceptions of the ranker. *)
Lemma rank_results_Raise results method e :
  _rank_results results method = Raise e →
  (e = IndexError ∧ results = []) ∨ e = KeyError ∨ e = TypeError.
Proof.
  unfold _rank_results, sorted_reverse. intros H.
  destruct (mapM _ results) as [vs|e1] eqn:Evs.
  2:{ injection H as <-. apply mapM_res_Raise in Evs as (x & _ & Hx).
      right. left. by eapply getitem_Raise. }
  res_unfold.
  destruct (list_sort py_lt _) as [s|e2] eqn:Es.
  2:{ injection H as <-. apply list_sort_Raise in Es as (a & b & Hab).
      right. right. by eapply py_lt_Raise. }
  destruct (snd <$> reverse s) as [|first rest] eqn:Esr.
  - injection H as <-. left. split; [done|].
    apply fmap_nil_inv in Esr. apply (f_equal length) in Esr.
    rewrite length_reverse, (Permutation_length (list_sort_perm _ _ _ Es)) in Esr.
    apply mapM_res_Ok, Forall2_length in Evs.
    rewrite length_reverse, length_zip_with in Esr.
    destruct results; [done|]. destruct vs; simpl in *; lia.
  - right. destruct (getitem first _) as [v0|e3] eqn:E3.
    + by eapply rank_loop_Raise.
    + injection H as <-. left. by eapply getitem_Raise.
Qed.

(** ** The ranker on numbers *)

Lemma py_lt_is_number (a b : json) :
  is_number a → is_number b → ∃ c, py_lt a b = Ok c.
Proof.
  intros (x & Hx & _) (y & Hy & _). exists (num_lt x y). by apply py_lt_num.
Qed.

Lemma py_lt_negtrans (a b c : json) :
  is_number a → is_number b → is_number c →
  py_lt a b = Ok false → py_lt b c = Ok false → py_lt a c = Ok false.
Proof.
  intros (x & Hx & Hnx) (y & Hy & Hny) (z & Hz & Hnz).
  rewrite (py_lt_num _ _ _ _ Hx Hy), (py_lt_num _ _ _ _ Hy Hz), (py_lt_num _ _ _ _ Hx Hz).
  intros [= H1] [= H2]. f_equal. exact (num_lt_negtrans x y z Hnx Hny Hnz H1 H2).
Qed.

(** A key with the value of a number. *)
Lemma number_key (x : pynum) : x ≠ NaN → ∃ k, to_num k = Some x.
Proof.
  destruct x as [q| |negative]; [| done |].
  - by exists (JFloat q).
  - by exists (JInfinity negative).
Qed.

Lemma tied_numbers (a b : json) (x y : pynum) :
  to_num a = Some x → to_num b = Some y → x ≠ NaN → y ≠ NaN →
  tied py_lt a b ↔ x = y.
Proof.
  intros Ha Hb Hx Hy. unfold tied.
  rewrite (py_lt_num _ _ _ _ Ha Hb), (py_lt_num _ _ _ _ Hb Ha). split.
  - intros [[= H1] [= H2]]. by apply num_lt_antisym.
  - intros ->. by rewrite num_lt_irrefl.
Qed.

Lemma has_number_getitem key result :
  has_number key result ↔ ∃ v, getitem result key = Ok v ∧ is_number v.
Proof.
  unfold has_number, number_score, is_number. split.
  - intros (x & Hx & Hn). destruct (getitem result key) as [v|]; [|done]. eauto.
  - intros (v & -> & x & Hx & Hn). eauto.
Qed.


Lemma score_number_score key result q :
  score key result = Ok q → number_score key result = Some (Fin q).
Proof.
  unfold score, number_score. res_unfold.
  destruct (getitem result key) as [v|]; [|done]. apply as_number_to_num.
Qed.

Lemma StronglySorted_reverse {A : Type} (R : relation A) (l : list A) :
  StronglySorted R l → StronglySorted (flip R) (reverse l).
Proof.
  induction 1 as [|x l Hs IH Hx]; [constructor|].
  rewrite reverse_cons. apply StronglySorted_app_2; [|done|repeat constructor].
  intros a b Ha ->%list_elem_of_singleton.
  rewrite Forall_forall in Hx. apply Hx. by apply elem_of_reverse.
Qed.

Lemma StronglySorted_Forall2 {A B : Type} (R : relation A) (R' : relation B)
    (Q : A → B → Prop) (l : list A) (k : list B) :
  (∀ a b x y, Q a x → Q b y → R a b → R' x y) →
  Forall2 Q l k → StronglySorted R l → StronglySorted R' k.
Proof.
  intros HR Hlk. induction Hlk as [|a x l k Hax Hlk IH]; [constructor|].
  intros [Ha Hs]%StronglySorted_cons. constructor; [by apply IH|].
  clear IH Hs. induction Hlk as [|b y l k Hby Hlk IH]; [constructor|].
  apply Forall_cons in Ha as [Hab Ha]. constructor; [by eapply HR|by apply IH].
Qed.

Lemma filter_snd {A B : Type} (Q : B → Prop) `{∀ x, Decision (Q x)} (ps : list (A * B)) :
  filter Q ps.*2 = (filter (λ p, Q p.2) ps).*2.
Proof.
  induction ps as [|p ps IH]; [done|].
  rewrite fmap_cons, !filter_cons, IH. by destruct (decide (Q p.2)).
Qed.

(** The ranked list of a non-empty list of results whose scores are numbers
    other than [nan]: the results rearranged so that the scores descend, tied
    results in the order of the input, with the ranks of [dense_ranks]. *)
Lemma rank_results_numbers (results : list dict) (method : SimAlgorithm) :
  results ≠ [] →
  Forall (has_number (method2key method)) results →
  ∃ (sorted_results : list dict) (xs : list pynum) (x0 : pynum),
    _rank_results results method
    = Ok (zip_with set_rank sorted_results (dense_ranks 1 x0 xs)) ∧
    sorted_results ≡ₚ results ∧
    Forall2 (λ r x, number_score (method2key method) r = Some x) sorted_results xs ∧
    head xs = Some x0 ∧
    Forall (λ x, x ≠ NaN) xs ∧
    StronglySorted (λ a b, num_lt a b = false) xs ∧
    ∀ x, filter (λ r, number_score (method2key method) r = Some x) sorted_results
         = filter (λ r, number_score (method2key method) r = Some x) results.
Proof.
  set (key := method2key method). intros Hne Hnum.
  (* the keys *)
  assert (∃ vs, Forall2 (λ r v, getitem r key = Ok v ∧ is_number v) results vs)
    as [vs Hvs].
  { apply Forall_exists_Forall2_l. eapply Forall_impl; [exact Hnum|].
    intros r. apply has_number_getitem. }
  assert (Forall2 (λ r v, getitem r key = Ok v) results vs) as Hget.
  { eapply Forall2_impl; [exact Hvs|]. by intros r v [? _]. }
  assert (Forall is_number vs) as Hgood.
  { eapply Forall2_Forall_r; [exact Hvs|]. apply Forall_true. by intros r v [_ ?]. }
  pose proof (Forall2_length _ _ _ Hget) as Hlen.
  assert (Forall (λ p : json * dict, is_number p.1) (reverse (zip vs results)))
    as Hgoodz.
  { rewrite reverse_Permutation. rewrite <- (Forall_fmap fst is_number).
    by rewrite fst_zip by lia. }
  (* the sort *)
  destruct (list_sort_returns py_lt is_number py_lt_is_number _ Hgoodz) as [s Hs].
  pose proof (list_sort_strongly_sorted py_lt is_number py_lt_asym
                py_lt_negtrans _ _ Hgoodz Hs) as Hsorted.
  rewrite <- (reverse_involutive s) in Hs.
  set (ps := reverse s) in *.
  destruct (sorted_pairs_perm key _ _ _ Hget Hs) as (Hperm & Hperm2 & Hperm1 & Hkeys).
  assert (Forall is_number ps.*1) as Hgoodp by by rewrite Hperm1.
  (* the numbers *)
  assert (∃ xs, Forall2 (λ v x, to_num v = Some x ∧ x ≠ NaN) ps.*1 xs) as [xs Hxs].
  { by apply Forall_exists_Forall2_l. }
  assert (Forall2 (λ v x, to_num v = Some x) ps.*1 xs) as Hxs1.
  { eapply Forall2_impl; [exact Hxs|]. by intros v x [? _]. }
  assert (Forall (λ x, x ≠ NaN) xs) as Hnan.
  { eapply Forall2_Forall_r; [exact Hxs|]. apply Forall_true. by intros v x [_ ?]. }
  assert (Forall2 (λ r x, number_score key r = Some x) ps.*2 xs) as Hscores.
  { clear -Hkeys Hxs1. revert xs Hxs1.
    induction Hkeys as [|r v rs vs' Hr Hk IH]; intros xs Hxs1;
      inversion Hxs1; subst; constructor; [|by apply IH].
    unfold number_score. by rewrite Hr. }
  assert (StronglySorted (λ a b, num_lt a b = false) xs) as Hdesc.
  { apply (StronglySorted_Forall2 (flip (no_descent py_lt)) _
             (λ v x, to_num v = Some x) ps.*1 xs); [|done|].
    - intros a b x y Ha Hb. unfold flip, no_descent.
      rewrite (py_lt_num _ _ _ _ Ha Hb). by intros [= ->].
    - unfold ps. rewrite fmap_reverse. by apply StronglySorted_reverse. }
  (* the head *)
  assert (ps ≠ []) as Hps.
  { intros E. rewrite E in Hperm2. apply Permutation_length in Hperm2.
    destruct results; done. }
  destruct ps as [|[v0 first] ps'] eqn:Eps; [done|].
  destruct xs as [|x0 xs']; [inversion Hxs1|].
  assert (to_num v0 = Some x0) as Hv0 by by inversion Hxs1.
  exists ((v0, first) :: ps').*2, (x0 :: xs'), x0.
  split; [|split; [done|split; [done|split; [done|split; [done|split; [done|]]]]]].
  - apply rank_results_Ok.
    exists vs, ((v0, first) :: ps'), v0, (dense_ranks 1 x0 (x0 :: xs')).
    split; [done|]. split; [done|]. split; [done|]. split; [|done].
    by apply rank_list_numbers.
  - (* stability *)
    intros x. destruct (decide (x = NaN)) as [->|Hx].
    { rewrite !(filter_Forall_not (λ r, number_score key r = Some NaN)); [done|..].
      - eapply Forall_impl; [exact Hnum|]. intros r (y & Hy & Hn) E. congruence.
      - rewrite Hperm2.
        eapply Forall_impl; [exact Hnum|]. intros r (y & Hy & Hn) E. congruence. }
    destruct (number_key x Hx) as [k Hk].
    assert (is_number k) as Hgk by by exists x.
    pose proof (list_sort_stable py_lt is_number py_lt_is_number py_lt_asym
                  py_lt_negtrans k Hgk _ _ Hgoodz Hs) as Hst.
    apply (f_equal reverse) in Hst.
    rewrite <- !filter_reverse, !reverse_involutive in Hst.
    assert (Hconv : ∀ qs : list (json * dict),
              Forall (λ p, getitem p.2 key = Ok p.1 ∧ is_number p.1) qs →
              filter (λ r, number_score key r = Some x) qs.*2
              = (filter (λ p : json * dict, tied py_lt k p.1) qs).*2).
    { intros qs Hqs. rewrite filter_snd. f_equal.
      apply filter_ext_Forall. eapply Forall_impl; [exact Hqs|].
      intros p [Hp (y & Hy & Hny)]. simpl. unfold number_score. rewrite Hp.
      rewrite (tied_numbers k p.1 x y Hk Hy Hx Hny). rewrite Hy.
      split; [by intros [= ->]|by intros ->]. }
    rewrite (Hconv ((v0, first) :: ps')).
    2:{ rewrite Hperm. clear -Hvs. induction Hvs; simpl; by constructor. }
    rewrite Hst, <- Hconv.
    + by rewrite snd_zip by lia.
    + clear -Hvs. induction Hvs; simpl; by constructor.
Qed.

Lemma rank_results_nonempty results method out :
  _rank_results results method = Ok out → results ≠ [].
Proof. by intros H ->. Qed.

(** ** What the ranked list looks like *)

Lemma rank_set_set_rank result k : rank_set result (set_rank result k).
Proof.
  split.
  - exists k. unfold set_rank. by rewrite lookup_insert_eq.
  - intros field Hne. unfold set_rank. by rewrite lookup_insert_ne.
Qed.

Lemma zip_with_set_rank_rank_set (l : list dict) (ks : list Z) :
  length l = length ks → Forall2 rank_set l (zip_with set_rank l ks).
Proof.
  revert ks. induction l as [|r l IH]; intros [|k ks] Hlen; simplify_eq/=.
  - constructor.
  - constructor; [apply rank_set_set_rank | by apply IH].
Qed.

Lemma zip_with_set_rank_ranked key (l : list dict) (xs : list pynum) (ks : list Z) :
  key ≠ "rank" →
  Forall2 (λ r x, number_score key r = Some x) l xs →
  length ks = length xs →
  Forall2 (ranked key) (zip_with set_rank l ks) (zip xs ks).
Proof.
  intros Hne Hl. revert ks.
  induction Hl as [|r q l scores Hr Hl IH]; intros [|k ks] Hlen; simplify_eq/=.
  - constructor.
  - constructor; [|by apply IH].
    split; simpl; [by rewrite number_score_set_rank | apply rank_of_set_rank].
Qed.



Lemma filter_zip_with_set_rank key (l : list dict) (xs : list pynum) (ks : list Z) x k :
  key ≠ "rank" →
  Forall2 (λ r y, number_score key r = Some y) l xs →
  length ks = length xs →
  (∀ j, xs !! j = Some x → ks !! j = Some k) →
  filter (λ o, number_score key o = Some x) (zip_with set_rank l ks)
  = (λ r, set_rank r k) <$> filter (λ r, number_score key r = Some x) l.
Proof.
  intros Hne Hl. revert ks.
  induction Hl as [|r s l scores Hr Hl IH]; intros [|k0 ks] Hlen Hk; simplify_eq/=;
    [done|].
  rewrite !filter_cons, number_score_set_rank by done.
  rewrite (IH ks) by (done || intros j; apply (Hk (S j))).
  destruct (decide (number_score key r = Some x)) as [Hq|Hq]; [|done].
  assert (s = x) as -> by congruence.
  specialize (Hk 0%nat eq_refl). by simplify_eq/=.
Qed.

Lemma rank_results_length (results out : list dict) (method : SimAlgorithm) :
  _rank_results results method = Ok out → length out = length results.
Proof.
  intros (vs & ps & v0 & ks & Hvs & Hs & Hv0 & Hks & ->)%rank_results_Ok.
  destruct (sorted_pairs_perm _ _ _ _ Hvs Hs) as (_ & Hperm & _ & _).
  rewrite length_zip_with, (rank_list_length _ _ _ _ Hks), !length_fmap.
  rewrite <- (Permutation_length Hperm), length_fmap. lia.
Qed.

Lemma rank_results_has_rank results method ranked :
  _rank_results results method = Ok ranked →
  Forall (λ r, ∃ k, r !! "rank" = Some (JInt k)) ranked.
Proof.
  intros (vs & ps & v0 & ks & _ & _ & _ & _ & ->)%rank_results_Ok.
  apply Forall_forall. intros o [i Hi]%list_elem_of_lookup.
  apply lookup_zip_with_Some in Hi as (r & k & -> & _ & _).
  exists k. unfold set_rank. by rewrite lookup_insert_eq.
Qed.

Lemma num_lt_trans (x y z : pynum) :
  num_lt x y = true → num_lt y z = true → num_lt x z = true.
Proof.
  destruct x as [a| |[]], y as [b| |[]], z as [c| |[]]; simpl; try done.
  rewrite !Qc_ltb_lt. apply Qclt_trans.
Qed.

Lemma elem_of_greater xs x y : y ∈ greater xs x ↔ y ∈ xs ∧ num_lt x y = true.
Proof. unfold greater. rewrite elem_of_list_to_set, list_elem_of_filter. tauto. Qed.

Lemma descending_lookup_le (xs : list pynum) i j a b :
  StronglySorted (λ a b, num_lt a b = false) xs → (i ≤ j)%nat →
  xs !! i = Some a → xs !! j = Some b → num_lt a b = false.
Proof.
  intros Hs Hij Hi Hj. destruct (decide (i = j)) as [->|Hne].
  - simplify_eq. apply num_lt_irrefl.
  - apply (descending_lookup xs i j); [done|lia|done..].
Qed.

(** Along a descending list the rank of [dense_ranks] is one more than the
    number of distinct greater numbers. *)
Lemma dense_ranks_greater x0 (xs : list pynum) :
  Forall (λ x, x ≠ NaN) xs →
  StronglySorted (λ a b, num_lt a b = false) xs → head xs = Some x0 →
  ∀ i x, xs !! i = Some x →
    dense_ranks 1 x0 xs !! i = Some (1 + Z.of_nat (size (greater xs x)))%Z.
Proof.
  intros Hnan Hs Hhd i. rewrite Forall_forall in Hnan.
  induction i as [|i IH]; intros s Hi.
  - destruct xs as [|s1 rest]; [done|]. simpl in Hhd, Hi.
    injection Hhd as ->. injection Hi as <-. simpl.
    rewrite num_lt_irrefl. do 2 f_equal.
    assert (greater (x0 :: rest) x0 = ∅) as ->; [|by rewrite size_empty].
    apply set_eq. intros y. rewrite elem_of_greater. split; [|set_solver].
    intros [[j Hj]%list_elem_of_lookup Hlt].
    pose proof (descending_lookup_le _ 0 j x0 y Hs ltac:(lia) eq_refl Hj). congruence.
  - destruct (lookup_lt_is_Some_2 xs i) as [s1 H1].
    { apply lookup_lt_Some in Hi. lia. }
    rewrite (dense_ranks_step _ _ _ _ _ _ _ H1 Hi (IH _ H1)).
    pose proof (descending_lookup_le _ i (S i) s1 s Hs ltac:(lia) H1 Hi) as Hle.
    assert (s1 ≠ NaN ∧ s ≠ NaN) as [Hn1 Hn].
    { split; apply Hnan; by eapply list_elem_of_lookup_2. }
    destruct (num_lt s s1) eqn:E.
    + f_equal.
      assert (greater xs s = greater xs s1 ∪ {[s1]}) as ->.
      { apply set_eq. intros y.
        rewrite elem_of_union, !elem_of_greater, elem_of_singleton. split.
        - intros [Hy Hlt]. destruct (list_elem_of_lookup_1 _ _ Hy) as [j Hj].
          destruct (le_lt_dec j i) as [Hji|Hji].
          + pose proof (descending_lookup_le _ j i y s1 Hs Hji Hj H1) as Hge.
            destruct (num_lt s1 y) eqn:E1; [by left|right].
            by apply num_lt_antisym; [apply Hnan|..].
          + pose proof (descending_lookup_le _ (S i) j s y Hs ltac:(lia) Hi Hj).
            congruence.
        - intros [[Hy Hlt]| ->].
          + split; [done|]. by eapply num_lt_trans.
          + split; [|done]. by eapply list_elem_of_lookup_2. }
      rewrite size_union, size_singleton; [lia|].
      intros y [_ Hy]%elem_of_greater ->%elem_of_singleton.
      rewrite num_lt_irrefl in Hy. done.
    + by rewrite (num_lt_antisym s s1 Hn Hn1 E Hle).
Qed.

Lemma greater_scores_greater key (results : list dict) (xs : list pynum) x :
  Forall2 (λ r s, number_score key r = Some s) results xs →
  greater_scores key results x = greater xs x.
Proof.
  unfold greater_scores, greater. intros H. f_equal.
  induction H as [|r s results xs Hr H IH]; [done|].
  csimpl. rewrite Hr, filter_cons. rewrite <- IH.
  destruct (num_lt x s) eqn:E.
  - by rewrite decide_True.
  - by rewrite decide_False.
Qed.

(** ** The result ranker: theorems *)

(** C1.  For a non-empty result list whose scores under the key of the
    method are numbers other than [nan], [_rank_results] returns the results
    of the input, rearranged, each with a rank stored and nothing else
    changed; the scores descend along the output, the first rank is 1, the
    rank stays the same on an equal score and goes up by exactly one on a
    strictly lower score, and equal scores have equal ranks; the scores
    10, 10, 7 are ranked 1, 1, 2. *)
Theorem rank_results_dense_ranking (results : list dict) (method : SimAlgorithm) :
  results ≠ [] →
  Forall (has_number (method2key method)) results →
  (∃ sorted_results out sks,
     _rank_results results method = Ok out ∧
     sorted_results ≡ₚ results ∧
     Forall2 rank_set sorted_results out ∧
     Forall2 (ranked (method2key method)) out sks ∧
     dense_ranking sks) ∧
  ranks_of (_rank_results (scored (method2key method) [10; 10; 7]%Z) method)
  = Some [1; 1; 2]%Z.
Proof.
  intros Hne Hnum. split.
  - destruct (rank_results_numbers results method Hne Hnum)
      as (srt & xs & x0 & Hout & Hperm & Hscores & Hhd & Hnan & Hdesc & _).
    exists srt, (zip_with set_rank srt (dense_ranks 1 x0 xs)),
           (zip xs (dense_ranks 1 x0 xs)).
    split; [done|]. split; [done|]. split; [|split].
    + apply zip_with_set_rank_rank_set.
      rewrite dense_ranks_length. by eapply Forall2_length.
    + apply zip_with_set_rank_ranked;
        [apply method2key_not_rank|done|apply dense_ranks_length].
    + by apply dense_ranks_dense.
  - by destruct method; vm_compute.
Qed.

(** C7.  [_rank_results] fails on the read of the first element of the
    sorted list exactly when the input list is empty: the empty list gives
    [IndexError], and no non-empty list does. *)
Theorem rank_results_empty_fails (results : list dict) (method : SimAlgorithm) :
  _rank_results results method = Raise IndexError ↔ results = [].
Proof.
  split; [|by intros ->].
  intros H. by destruct (rank_results_Raise _ _ _ H) as [[_ ?]|[?|?]].
Qed.

(** C8.  When [_rank_results] returns for a result list whose scores under
    the key of the method are numbers other than [nan], the results of the
    output that have a given score are the results of the input that have
    that score, in the order of the input, each with the same rank stored:
    the descending sort keeps the input order of tied results. *)
Theorem rank_results_stable (results out : list dict) (method : SimAlgorithm) :
  Forall (has_number (method2key method)) results →
  _rank_results results method = Ok out →
  ∀ x : pynum, ∃ k : Z,
    filter (λ o, number_score (method2key method) o = Some x) out
    = (λ r, set_rank r k)
      <$> filter (λ r, number_score (method2key method) r = Some x) results.
Proof.
  intros Hnum Hout x.
  destruct (rank_results_numbers results method (rank_results_nonempty _ _ _ Hout) Hnum)
    as (srt & xs & x0 & Hout' & Hperm & Hscores & Hhd & Hnan & Hdesc & Hstable).
  rewrite Hout' in Hout. injection Hout as <-.
  pose proof (dense_ranks_dense x0 xs Hhd Hnan Hdesc) as (_ & _ & _ & Htie).
  set (ranks := dense_ranks 1 x0 xs) in *.
  assert (Hlen : length ranks = length xs) by apply dense_ranks_length.
  rewrite <- Hstable.
  destruct (decide (x ∈ xs)) as [Hin|Hnin].
  - apply list_elem_of_lookup in Hin as [j Hj].
    destruct (lookup_lt_is_Some_2 ranks j) as [k Hk].
    { rewrite Hlen. by eapply lookup_lt_Some. }
    exists k.
    apply (filter_zip_with_set_rank _ _ xs); [apply method2key_not_rank|done..|].
    intros j' Hj'.
    destruct (lookup_lt_is_Some_2 ranks j') as [k' Hk'].
    { rewrite Hlen. by eapply lookup_lt_Some. }
    rewrite Hk'. f_equal.
    apply (Htie j' j (x, k') (x, k)); [| |done];
      apply lookup_zip_with_Some; by eexists _, _.
  - exists 0%Z.
    apply (filter_zip_with_set_rank _ _ xs); [apply method2key_not_rank|done..|].
    intros j Hj. destruct Hnin. by eapply list_elem_of_lookup_2.
Qed.


(** ** The ranker without the restriction to numbers: counterexamples *)

(** On the scores 1.0, [nan], 2.0 the ranker returns the results in the
    order of the input, all with rank 1: the scores do not descend, and the
    output with its ranks is no dense ranking. *)
Lemma rank_results_nan_not_descending :
  example_nan_results ≠ [] ∧
  (∃ out,
     _rank_results example_nan_results JACCARD = Ok out ∧
     out = zip_with set_rank example_nan_results [1; 1; 1]%Z ∧
     ¬ scores_descend (method2key JACCARD) out) ∧
  ¬ ∃ sorted_results out sks,
      _rank_results example_nan_results JACCARD = Ok out ∧
      sorted_results ≡ₚ example_nan_results ∧
      Forall2 rank_set sorted_results out ∧
      Forall2 (ranked (method2key JACCARD)) out sks ∧
      dense_ranking sks.
Proof.
  assert (Hout : _rank_results example_nan_results JACCARD
                 = Ok (zip_with set_rank example_nan_results [1; 1; 1]%Z)).
  { vm_compute. reflexivity. }
  split; [done|]. split.
  - eexists. split; [exact Hout|]. split; [done|].
    intros H.
    specialize (H 0%nat 2%nat _ _ (JFloat (Qc_of_Z 1)) (JFloat (Qc_of_Z 2))
                  ltac:(lia) eq_refl eq_refl eq_refl eq_refl).
    vm_compute in H. discriminate H.
  - intros (srt & out & sks & Hout' & _ & _ & Hranked & Hdesc & _).
    rewrite Hout in Hout'. injection Hout' as <-.
    simpl in Hranked.
    inversion Hranked as [|o1 a ? ? [Ha _] Hr1]; subst.
    inversion Hr1 as [|o2 b ? ? _ Hr2]; subst.
    inversion Hr2 as [|o3 c ? ? [Hc _] Hr3]; subst.
    specialize (Hdesc 0%nat 2%nat a c ltac:(lia) eq_refl eq_refl).
    destruct a as [xa ka], c as [xc kc]. cbn [fst] in Ha, Hc, Hdesc.
    vm_compute in Ha, Hc. injection Ha as <-. injection Hc as <-.
    vm_compute in Hdesc. discriminate Hdesc.
Qed.

Lemma result_ids_set_rank (l : list dict) (k : Z) :
  result_ids ((λ r, set_rank r k) <$> l) = result_ids l.
Proof.
  unfold result_ids. rewrite <- list_fmap_compose. apply list_fmap_ext.
  intros i r _. simpl. unfold j_field, getitem, set_rank.
  by rewrite lookup_insert_ne.
Qed.

(** On the scores 1.0, 1.0, [nan], 1.0, 1.0, 1.0, 2.0 the ranker returns
    the second result in front of the first, with another rank, though
    their scores are equal. *)
Lemma rank_results_nan_not_stable :
  _rank_results example_nan_ties JACCARD = Ok example_nan_ties_ranked ∧
  number_score (method2key JACCARD) <$> example_nan_ties
  = [Some (Fin (Qc_of_Z 1)); Some (Fin (Qc_of_Z 1)); Some NaN;
     Some (Fin (Qc_of_Z 1)); Some (Fin (Qc_of_Z 1)); Some (Fin (Qc_of_Z 1));
     Some (Fin (Qc_of_Z 2))] ∧
  result_ids example_nan_ties
  = [Ok (JStr "MONDO:0"); Ok (JStr "MONDO:1"); Ok (JStr "MONDO:2");
     Ok (JStr "MONDO:3"); Ok (JStr "MONDO:4"); Ok (JStr "MONDO:5");
     Ok (JStr "MONDO:6")] ∧
  result_ids example_nan_ties_ranked
  = [Ok (JStr "MONDO:1"); Ok (JStr "MONDO:2"); Ok (JStr "MONDO:6");
     Ok (JStr "MONDO:0"); Ok (JStr "MONDO:3"); Ok (JStr "MONDO:4");
     Ok (JStr "MONDO:5")] ∧
  ranks_of (Ok example_nan_ties_ranked) = Some [1; 1; 1; 2; 2; 2; 2]%Z ∧
  ¬ ∃ k : Z,
      filter (λ o, number_score (method2key JACCARD) o = Some (Fin (Qc_of_Z 1)))
        example_nan_ties_ranked
      = (λ r, set_rank r k)
        <$> filter (λ r, number_score (method2key JACCARD) r
                         = Some (Fin (Qc_of_Z 1))) example_nan_ties.
Proof.
  split; [vm_compute; reflexivity|]. split; [vm_compute; reflexivity|].
  split; [vm_compute; reflexivity|]. split; [vm_compute; reflexivity|].
  split; [vm_compute; reflexivity|].
  intros [k Hk]. apply (f_equal result_ids) in Hk.
  rewrite result_ids_set_rank in Hk. vm_compute in Hk. discriminate Hk.
Qed.

(** ** Further properties of the ranker *)


(** X2.  When a result of the list has no entry under the key of the
    method, and every other result has a numeric score or no entry either,
    [_rank_results] raises [KeyError]. *)
Theorem rank_results_missing_score (results : list dict) (method : SimAlgorithm) :
  Forall (λ r, has_score (method2key method) r ∨ r !! method2key method = None) results →
  Exists (λ r, r !! method2key method = None) results →
  _rank_results results method = Raise KeyError.
Proof.
  intros Hall Hex.
  assert (mapM (λ k, getitem k (method2key method)) results = Raise KeyError) as E.
  { induction Hall as [|r l Hr Hl IH]; [by inversion Hex|].
    simpl. res_unfold. unfold getitem at 1.
    destruct (r !! method2key method) as [v|] eqn:Ev; [|done].
    rewrite IH; [done|].
    inversion Hex as [? ? Hnone|]; subst; [congruence|done]. }
  unfold _rank_results, sorted_reverse. by rewrite E.
Qed.

(** X3.  When [_rank_results] returns, the output is as long as the input,
    the result at position [i] (from 0) has a rank between 1 and [i + 1], and
    the ranks never go down along the output. *)
Theorem rank_results_rank_bounds (results out : list dict) (method : SimAlgorithm) :
  _rank_results results method = Ok out →
  length out = length results ∧
  (∀ i o, out !! i = Some o →
     ∃ k, rank_of o = Some k ∧ (1 ≤ k ≤ Z.of_nat i + 1)%Z) ∧
  (∀ i j o1 o2 k1 k2, (i ≤ j)%nat → out !! i = Some o1 → out !! j = Some o2 →
     rank_of o1 = Some k1 → rank_of o2 = Some k2 → (k1 ≤ k2)%Z).
Proof.
  intros Hout. pose proof (rank_results_length _ _ _ Hout) as Hlen.
  apply rank_results_Ok in Hout as (vs & ps & v0 & ks & Hvs & Hs & Hv0 & Hks & ->).
  destruct (rank_list_sorted _ _ _ _ Hks) as [Hlow Hsorted].
  split; [exact Hlen|]. split.
  - intros i o Ho.
    apply lookup_zip_with_Some in Ho as (r & k & -> & _ & Hk).
    exists k. split; [apply rank_of_set_rank|]. split.
    + rewrite Forall_forall in Hlow. apply Hlow. by eapply list_elem_of_lookup_2.
    + destruct ps.*1 as [|v rest]; [done|]. injection Hv0 as ->.
      apply rank_list_first in Hks as (ks' & -> & Hks').
      destruct i as [|i]; simpl in Hk.
      * injection Hk as <-. lia.
      * pose proof (rank_list_upper _ _ _ _ _ _ Hks' Hk). lia.
  - intros i j o1 o2 k1 k2 Hij Ho1 Ho2 Hk1 Hk2.
    apply lookup_zip_with_Some in Ho1 as (r1 & k1' & -> & _ & Hk1').
    apply lookup_zip_with_Some in Ho2 as (r2 & k2' & -> & _ & Hk2').
    rewrite rank_of_set_rank in Hk1, Hk2. simplify_eq.
    destruct (decide (i = j)) as [->|Hne]; [simplify_eq; lia|].
    apply (StronglySorted_lookup Z.le ks i j k1 k2 Hsorted); [lia|done..].
Qed.

(** X4.  When [_rank_results] returns for a result list whose scores under
    the key of the method are numbers other than [nan], the rank of each
    result of the output is one more than the number of distinct scores of
    the input that are strictly greater than its own score. *)
Theorem rank_results_rank_counts (results out : list dict) (method : SimAlgorithm) :
  Forall (has_number (method2key method)) results →
  _rank_results results method = Ok out →
  ∀ o x, o ∈ out → number_score (method2key method) o = Some x →
    rank_of o
    = Some (1 + Z.of_nat (size (greater_scores (method2key method) results x)))%Z.
Proof.
  intros Hnum Hout o x Ho Hx.
  destruct (rank_results_numbers results method (rank_results_nonempty _ _ _ Hout) Hnum)
    as (srt & xs & x0 & Hout' & Hperm & Hscores & Hhd & Hnan & Hdesc & _).
  rewrite Hout' in Hout. injection Hout as <-.
  assert (greater_scores (method2key method) results x = greater xs x) as ->.
  { rewrite <- (greater_scores_greater _ _ _ _ Hscores).
    unfold greater_scores. by rewrite Hperm. }
  apply list_elem_of_lookup in Ho as [i Hi].
  apply lookup_zip_with_Some in Hi as (r & k & -> & Hr & Hk).
  rewrite rank_of_set_rank.
  rewrite number_score_set_rank in Hx by apply method2key_not_rank.
  destruct (Forall2_lookup_l _ _ _ _ _ Hscores Hr) as (s & Hs & Hrs).
  assert (s = x) as -> by congruence.
  rewrite (dense_ranks_greater x0 xs Hnan Hdesc Hhd i x Hs) in Hk. congruence.
Qed.

Lemma mapM_getitem_missing key (results : list dict) :
  Exists (λ r, r !! key = None) results →
  mapM (λ k, getitem k key) results = Raise KeyError.
Proof.
  induction 1 as [r l Hr|r l Hl IH]; simpl; res_unfold; unfold getitem at 1.
  - by rewrite Hr.
  - destruct (r !! key); [|done]. by rewrite IH.
Qed.

(** X19.  [_rank_results] raises [KeyError] exactly when some result has no
    entry under the key of the method, whatever the other results hold, and
    it raises nothing but [IndexError], [KeyError] and [TypeError]. *)
Theorem rank_results_key_error (results : list dict) (method : SimAlgorithm) :
  (_rank_results results method = Raise KeyError ↔
   Exists (λ r, r !! method2key method = None) results) ∧
  (∀ e, _rank_results results method = Raise e →
        e = IndexError ∨ e = KeyError ∨ e = TypeError).
Proof.
  split.
  - split.
    + intros H. unfold _rank_results, sorted_reverse in H.
      destruct (mapM _ results) as [vs|e1] eqn:Evs.
      * exfalso. apply mapM_res_Ok in Evs. res_unfold.
        destruct (list_sort py_lt _) as [s|e2] eqn:Es.
        2:{ injection H as ->. apply list_sort_Raise in Es as (a & b & Hab).
            by apply py_lt_Raise in Hab. }
        rewrite <- (reverse_involutive s) in Es.
        destruct (sorted_pairs_perm _ _ _ _ Evs Es) as (_ & _ & _ & Hkeys).
        destruct (reverse s) as [|[v0 first] ps]; [done|].
        rewrite fmap_cons in H. cbn [snd] in H.
        inversion Hkeys as [|? ? ? ? Hfirst Hkeys']; subst. simpl in Hfirst.
        rewrite Hfirst in H.
        rewrite (rank_loop_keys _ _ _ (first :: ps.*2) (v0 :: ps.*1)) in H;
          [|apply method2key_not_rank|by constructor].
        res_unfold.
        destruct (rank_list 1 v0 (v0 :: ps.*1)) as [ks|e3] eqn:Eks; [done|].
        injection H as ->. by apply rank_list_Raise in Eks.
      * apply mapM_res_Raise in Evs as (x & Hx & Hget).
        apply Exists_exists. exists x. split; [done|].
        unfold getitem in Hget. by destruct (x !! method2key method).
    + intros Hex. unfold _rank_results, sorted_reverse.
      by rewrite (mapM_getitem_missing _ _ Hex).
  - intros e H. destruct (rank_results_Raise _ _ _ H) as [[-> _]|[->| ->]]; auto.
Qed.

(** X20.  Whenever [_rank_results] returns, whatever the scores are, the
    output is a rearrangement of the input in which each record has an
    integer under ['rank'] and every other field as in the input. *)
Theorem rank_results_rearranges (results out : list dict) (method : SimAlgorithm) :
  _rank_results results method = Ok out →
  ∃ sorted_results,
    sorted_results ≡ₚ results ∧ Forall2 rank_set sorted_results out.
Proof.
  intros (vs & ps & v0 & ks & Hvs & Hs & Hv0 & Hks & ->)%rank_results_Ok.
  destruct (sorted_pairs_perm _ _ _ _ Hvs Hs) as (_ & Hperm & _ & _).
  exists ps.*2. split; [done|].
  apply zip_with_set_rank_rank_set.
  by rewrite (rank_list_length _ _ _ _ Hks), !length_fmap.
Qed.

(** ** The namespace resolver: theorems *)

(** C2.  With a taxon and a category both supplied, [_get_namespace_filter]
    returns no filter, whatever the table holds for them: for taxon 9606
    and category ["gene"] the table entry is ["HGNC"] and the call returns
    [None]. *)
Theorem namespace_filter_both_supplied (taxon : Z) (category : string) :
  _get_namespace_filter (Some taxon) (Some category) = Ok None ∧
  (TAX_TO_NS !! 9606%Z ≫= (λ by_category, by_category !! lower "gene")) = Some "HGNC" ∧
  _get_namespace_filter (Some 9606%Z) (Some "gene") = Ok None.
Proof. by repeat split. Qed.

(** C3.  Each taxon of the default-category table, on its own, resolves to
    the table entry of its default category (9606 to the entry of
    ["disease"], which is ["MONDO"]); the same taxon together with its
    default category resolves to no filter. *)
Theorem namespace_filter_default_category :
  let taxa := [10090; 9606; 7227; 6239; 7955]%Z in
  dom taxon_category_default = list_to_set taxa ∧
  (λ taxon, _get_namespace_filter (Some taxon) None) <$> taxa
  = (λ taxon, Ok (TAX_TO_NS !! taxon ≫= λ by_category,
                  taxon_category_default !! taxon ≫= λ category,
                  by_category !! lower category)) <$> taxa ∧
  _get_namespace_filter (Some 9606%Z) None = Ok (Some "MONDO") ∧
  (TAX_TO_NS !! 9606%Z ≫= (λ by_category, by_category !! "disease")) = Some "MONDO" ∧
  (λ taxon, _get_namespace_filter (Some taxon) (taxon_category_default !! taxon)) <$> taxa
  = (λ _, Ok None) <$> taxa.
Proof. by repeat split. Qed.

(** ** The client: lemmas *)

Ltac res_cases :=
  repeat match goal with
         | H : context [match ?x with _ => _ end] |- _ => destruct x eqn:?; simplify_eq/=
         end.

Section ClientFacts.
Variable remote : string → dict → res json.
Variable get_nodes_from_ids : json → res (list Node).
Variable get_id_type_map : list json → res (json → option (list json)).

Lemma make_match_significance id_type_map method mode result m :
  make_match id_type_map method mode result = Ok m →
  sm_significance m = JStr "NaN".
Proof.
  unfold make_match. res_unfold. intros H. res_cases; done.
Qed.

Lemma make_match_compare id_type_map method result m :
  make_match id_type_map method "compare" result = Ok m →
  sm_rank m = JStr "NaN".
Proof.
  unfold make_match. res_unfold. intros H. simpl in H. res_cases; done.
Qed.

Lemma make_match_search id_type_map method result m :
  make_match id_type_map method "search" result = Ok m →
  result !! "rank" = Some (sm_rank m).
Proof.
  unfold make_match. res_unfold. intros H. simpl in H.
  unfold getitem in H. res_cases; done.
Qed.

(** Past the reads of the scores, the argument of the ranker is the list
    of the results of the response. *)
Lemma ranked_input_results sim_resp method results :
  ranked_input sim_resp method = Ok results → response_results sim_resp = Ok results.
Proof.
  unfold ranked_input, response_results. res_unfold.
  destruct (subscript sim_resp "results") as [v|]; [|done].
  destruct (iterate v) as [items|]; [|done].
  by destruct (mapM _ items).
Qed.

Lemma ranked_input_empty sim_resp method :
  response_results sim_resp = Ok [] → ranked_input sim_resp method = Ok [].
Proof.
  unfold ranked_input, response_results. res_unfold.
  destruct (subscript sim_resp "results") as [v|]; [|done].
  destruct (iterate v) as [items|]; [|done].
  intros H%mapM_res_Ok. by inversion H.
Qed.

(** The matches of a result are made, one by one, from the ranked
    results of the response. *)
Lemma simsearch_to_simresult_matches sim_resp method mode result :
  _simsearch_to_simresult get_nodes_from_ids get_id_type_map sim_resp method mode
  = Ok result →
  ∃ results ranked id_type_map,
    response_results sim_resp = Ok results ∧
    _rank_results results method = Ok ranked ∧
    Forall2 (λ r m, make_match id_type_map method mode r = Ok m)
      ranked (sr_matches result).
Proof.
  unfold _simsearch_to_simresult. res_unfold. intros H.
  destruct (subscript sim_resp "query_IRIs") as [iris|]; [|done].
  destruct (get_nodes_from_ids iris) as [sim_ids|]; [|done].
  destruct (ranked_input sim_resp method) as [results|] eqn:Eres; [|done].
  destruct (_rank_results results method) as [ranked|] eqn:Erank; [|done].
  destruct (mapM _ ranked) as [ids|]; [|done].
  destruct (get_id_type_map ids) as [id_type_map|]; [|done].
  destruct (mapM (make_match id_type_map method mode) ranked) as [matches|] eqn:Em;
    [|done].
  exists results, ranked, id_type_map.
  apply mapM_res_Ok in Em. apply ranked_input_results in Eres.
  repeat split; try done.
  res_cases; done.
Qed.

End ClientFacts.

(** ** The client: theorems *)

Lemma filtered_search_trace remote get_nodes_from_ids get_id_type_map self
    id_list negated_classes taxon_filter category_filter method (t : list event) :
  filtered_search remote get_nodes_from_ids get_id_type_map self id_list
    negated_classes taxon_filter category_filter method t
  = let r := run (filtered_search remote get_nodes_from_ids get_id_type_map self
                    id_list [] taxon_filter category_filter method) in
    (r.1, t ++ negation_warning negated_classes ++ r.2).
Proof.
  unfold filtered_search, run, search_by_attribute_set, http_get, lift, emit,
    mbind, M_bind, mret, M_ret.
  destruct negated_classes; simpl;
    destruct (_get_namespace_filter taxon_filter category_filter); simpl;
    rewrite ?app_nil_r, <- ?app_assoc; simpl;
    repeat case_match; simplify_eq/=; done.
Qed.

(** C4.  With a category and no taxon, [_get_namespace_filter] raises the
    [ValueError] of the invalid filter combination, [filtered_search] raises
    it too, and no request is in the trace of that call. *)
Theorem category_without_taxon_rejected remote get_nodes_from_ids get_id_type_map
    (self : OwlSim2Api) (id_list negated_classes : list string)
    (category : string) (method : SimAlgorithm) :
  let call := run (filtered_search remote get_nodes_from_ids get_id_type_map self
                     id_list negated_classes None (Some category) method) in
  _get_namespace_filter None (Some category)
  = Raise (ValueError "Must provide taxon filter along with category") ∧
  call.1 = Raise (ValueError "Must provide taxon filter along with category") ∧
  Forall (λ e, is_request e = false) call.2.
Proof.
  simpl. unfold run. rewrite filtered_search_trace. simpl.
  repeat split. destruct negated_classes; simpl; repeat constructor.
Qed.

(** C5.  Every match of a result that [compare] returns has the string
    ["NaN"] as its rank; every match of a result that [filtered_search]
    returns has the integer rank that [_rank_results] stored in the
    corresponding result of the response. *)
Theorem compare_rank_not_applicable remote get_nodes_from_ids get_id_type_map
    (self : OwlSim2Api) (reference_classes query_classes id_list negated_classes : list string)
    (taxon_filter : option Z) (category_filter : option string) (method : SimAlgorithm) :
  (∀ result trace,
     run (compare remote get_nodes_from_ids get_id_type_map self
            reference_classes query_classes method) = (Ok result, trace) →
     Forall (λ m, sm_rank m = JStr "NaN") (sr_matches result)) ∧
  (∀ result trace,
     run (filtered_search remote get_nodes_from_ids get_id_type_map self
            id_list negated_classes taxon_filter category_filter method)
     = (Ok result, trace) →
     ∃ owlsim_url params sim_resp results ranked,
       HttpGet owlsim_url params ∈ trace ∧
       remote owlsim_url params = Ok sim_resp ∧
       response_results sim_resp = Ok results ∧
       _rank_results results method = Ok ranked ∧
       Forall2 (λ r m, ∃ k, rank_of r = Some k ∧ sm_rank m = JInt k)
         ranked (sr_matches result)).
Proof.
  split; intros result trace.
  - unfold compare, compare_attribute_sets, http_get, run, lift, mbind, M_bind.
    destruct (remote _ _) as [sim_resp|]; [|done].
    intros [= H _].
    apply simsearch_to_simresult_matches in H as (results & ranked & tm & _ & _ & Hm).
    eapply Forall2_Forall_r; [exact Hm|].
    apply Forall_true. intros r m. apply make_match_compare.
  - unfold run. rewrite filtered_search_trace.
    unfold filtered_search, search_by_attribute_set, http_get, run, lift, emit,
      mbind, M_bind, mret, M_ret. simpl.
    destruct (_get_namespace_filter taxon_filter category_filter) as [ns|]; [|done].
    simpl. destruct (remote _ _) as [sim_resp|] eqn:Er; [|done].
    simpl. intros [= H <-].
    apply simsearch_to_simresult_matches in H as (results & ranked & tm & Hres & Hrank & Hm).
    eexists _, _, sim_resp, results, ranked.
    split; [|split; [exact Er|split; [done|split; [done|]]]].
    + set_solver.
    + pose proof (rank_results_has_rank _ _ _ Hrank) as Hk.
      clear -Hm Hk. induction Hm as [|r m ranked ms Hr Hm IH]; [constructor|].
      inversion Hk as [|? ? [k Hrk] Hk']; subst.
      constructor; [|by apply IH].
      apply make_match_search in Hr. exists k. unfold rank_of. rewrite Hrk.
      split; [done|congruence].
Qed.

(** C6.  The trace of [filtered_search] is the warning about negation, once,
    when the list of negated classes is not empty, followed by the trace of
    the same call without negated classes, which holds at most the one
    request, made of the profile and the namespace only; the call returns or
    raises as it does without negated classes; [search] is [filtered_search]
    without filters. *)
Theorem negated_classes_dropped remote get_nodes_from_ids get_id_type_map
    (self : OwlSim2Api) (id_list negated_classes : list string)
    (taxon_filter : option Z) (category_filter : option string) (method : SimAlgorithm) :
  let call := run (filtered_search remote get_nodes_from_ids get_id_type_map self
                     id_list negated_classes taxon_filter category_filter method) in
  let plain := run (filtered_search remote get_nodes_from_ids get_id_type_map self
                      id_list [] taxon_filter category_filter method) in
  call.1 = plain.1 ∧
  call.2 = negation_warning negated_classes ++ plain.2 ∧
  plain.2 = match _get_namespace_filter taxon_filter category_filter with
            | Ok namespace_filter =>
              [HttpGet (url self ++ "searchByAttributeSet")
                 {[ "a" := profile_param id_list;
                    "target" := from_option JStr JNull namespace_filter ]}]
            | Raise _ => []
            end ∧
  length (filter (λ e, is_warning e) call.2)
  = match negated_classes with [] => 0%nat | _ :: _ => 1%nat end ∧
  run (search remote get_nodes_from_ids get_id_type_map self id_list negated_classes method)
  = run (filtered_search remote get_nodes_from_ids get_id_type_map self
           id_list negated_classes None None method).
Proof.
  intros call plain.
  assert (Hplain : plain.2
            = match _get_namespace_filter taxon_filter category_filter with
              | Ok namespace_filter =>
                [HttpGet (url self ++ "searchByAttributeSet")
                   {[ "a" := profile_param id_list;
                      "target" := from_option JStr JNull namespace_filter ]}]
              | Raise _ => []
              end).
  { unfold plain, filtered_search, search_by_attribute_set, http_get, run, lift, emit,
      mbind, M_bind, mret, M_ret. simpl.
    destruct (_get_namespace_filter taxon_filter category_filter); [|done].
    simpl. by destruct (remote _ _). }
  assert (Hcall : call = (plain.1, negation_warning negated_classes ++ plain.2)).
  { unfold call, run. by rewrite filtered_search_trace. }
  rewrite Hcall. simpl. repeat split; [done|].
  rewrite filter_app, Hplain.
  destruct negated_classes; simpl;
    by destruct (_get_namespace_filter taxon_filter category_filter).
Qed.

(** C9.  Every match of a result that [_simsearch_to_simresult] returns,
    whatever the mode, has the string ["NaN"] as its significance. *)
Theorem simmatch_significance_nan get_nodes_from_ids get_id_type_map
    (sim_resp : json) (method : SimAlgorithm) (mode : string) (result : SimResult) :
  _simsearch_to_simresult get_nodes_from_ids get_id_type_map sim_resp method mode
  = Ok result →
  Forall (λ m, sm_significance m = JStr "NaN") (sr_matches result).
Proof.
  intros H.
  apply simsearch_to_simresult_matches in H as (results & ranked & tm & _ & _ & Hm).
  eapply Forall2_Forall_r; [exact Hm|].
  apply Forall_true. intros r m. apply make_match_significance.
Qed.


(** ** Further properties of the client *)

(** X5.  A response whose ['results'] list is empty makes
    [_simsearch_to_simresult] raise [IndexError], in either mode, once the
    query identifiers have been resolved: no empty [SimResult] is returned. *)
Theorem simsearch_to_simresult_no_results get_nodes_from_ids get_id_type_map
    (sim_resp : json) (method : SimAlgorithm) (mode : string) (sim_ids : list Node) :
  subscript sim_resp "query_IRIs" ≫= get_nodes_from_ids = Ok sim_ids →
  response_results sim_resp = Ok [] →
  _simsearch_to_simresult get_nodes_from_ids get_id_type_map sim_resp method mode
  = Raise IndexError.
Proof.
  intros Hids Hres. unfold _simsearch_to_simresult.
  rewrite Hids. res_unfold. by rewrite (ranked_input_empty _ method Hres).
Qed.

Lemma make_match_fields id_type_map method mode result m :
  make_match id_type_map method mode result = Ok m →
  j_field result "id" = Ok (sm_id m) ∧
  j_field result "label" = Ok (sm_label m) ∧
  getitem result (method2key method) = Ok (sm_score m).
Proof.
  unfold make_match. res_unfold. intros H. res_cases; done.
Qed.

(** X6.  When [_simsearch_to_simresult] returns, the matches are as many as
    the results of the response, and each match has the identifier, the label
    and the score of the ranked result at its position; when the scores of
    the results are numbers other than [nan], the scores of the matches
    descend. *)
Theorem simresult_matches_descending get_nodes_from_ids get_id_type_map
    (sim_resp : json) (method : SimAlgorithm) (mode : string) (result : SimResult) :
  _simsearch_to_simresult get_nodes_from_ids get_id_type_map sim_resp method mode
  = Ok result →
  ∃ results ranked,
    response_results sim_resp = Ok results ∧
    _rank_results results method = Ok ranked ∧
    length (sr_matches result) = length results ∧
    Forall2 (λ r m, j_field r "id" = Ok (sm_id m) ∧
                    j_field r "label" = Ok (sm_label m) ∧
                    getitem r (method2key method) = Ok (sm_score m))
      ranked (sr_matches result) ∧
    (Forall (has_number (method2key method)) results →
     ∀ i j m1 m2, (i ≤ j)%nat →
       sr_matches result !! i = Some m1 → sr_matches result !! j = Some m2 →
       ∃ x1 x2, to_num (sm_score m1) = Some x1 ∧ to_num (sm_score m2) = Some x2 ∧
                num_le x2 x1 = true).
Proof.
  intros H.
  apply simsearch_to_simresult_matches in H
    as (results & ranked & tm & Hres & Hrank & Hm).
  exists results, ranked.
  assert (Hf : Forall2 (λ r m, j_field r "id" = Ok (sm_id m) ∧
                    j_field r "label" = Ok (sm_label m) ∧
                    getitem r (method2key method) = Ok (sm_score m))
      ranked (sr_matches result)).
  { eapply Forall2_impl; [exact Hm|]. intros r m. apply make_match_fields. }
  pose proof (rank_results_length _ _ _ Hrank) as Hlen.
  split; [done|]. split; [done|]. split.
  { rewrite <- Hlen. symmetry. by eapply Forall2_length. }
  split; [done|].
  intros Hnum i j m1 m2 Hij H1 H2.
  destruct (rank_results_numbers results method (rank_results_nonempty _ _ _ Hrank) Hnum)
    as (srt & xs & x0 & Hout & Hperm & Hscores & Hhd & Hnan & Hdesc & _).
  rewrite Hout in Hrank. injection Hrank as <-.
  pose proof (zip_with_set_rank_ranked (method2key method) srt xs
                (dense_ranks 1 x0 xs) (method2key_not_rank method) Hscores
                (dense_ranks_length _ _ _)) as Hranked.
  pose proof (dense_ranks_dense x0 xs Hhd Hnan Hdesc) as (Hdescend & _).
  destruct (Forall2_lookup_r _ _ _ _ _ Hf H1) as (r1 & Hr1 & _ & _ & Hs1).
  destruct (Forall2_lookup_r _ _ _ _ _ Hf H2) as (r2 & Hr2 & _ & _ & Hs2).
  destruct (Forall2_lookup_l _ _ _ _ _ Hranked Hr1) as ([x1 k1] & Hsk1 & Hsc1 & _).
  destruct (Forall2_lookup_l _ _ _ _ _ Hranked Hr2) as ([x2 k2] & Hsk2 & Hsc2 & _).
  simpl in *. exists x1, x2.
  unfold number_score in Hsc1, Hsc2. rewrite Hs1 in Hsc1. rewrite Hs2 in Hsc2.
  split; [done|]. split; [done|].
  apply (Hdescend i j (x1, k1) (x2, k2) Hij Hsk1 Hsk2).
Qed.

Lemma ICNode_init_icnode_of (v : json) (n : ICNode) :
  ICNode_init v = Ok n → icnode_of v n.
Proof.
  unfold ICNode_init, icnode_of, as_dict, subscript, getitem. res_unfold.
  intros H. destruct v; try done. res_cases.
  destruct (o !! "label"); simpl; auto.
Qed.

Lemma make_pairwise_matches_of (result : dict) (pms : list PairwiseMatch) :
  _make_pairwise_matches result = Ok pms →
  ∃ v raw, result !! "matches" = Some v ∧ iterate v = Ok raw ∧
           Forall2 pairwise_of raw pms.
Proof.
  unfold _make_pairwise_matches, getitem. res_unfold.
  intros H. destruct (result !! "matches") as [v|]; [|done].
  destruct (iterate v) as [items|] eqn:Eitems; [|done].
  exists v, items. split; [done|]. split; [done|].
  apply mapM_res_Ok in H.
  eapply Forall2_impl; [exact H|]. intros raw pm Hpm. simpl in Hpm.
  destruct (subscript raw "a") as [a|] eqn:Ea; [|done].
  destruct (ICNode_init a) as [na|] eqn:Ena; [|done].
  destruct (subscript raw "b") as [b|] eqn:Eb; [|done].
  destruct (ICNode_init b) as [nb|] eqn:Enb; [|done].
  destruct (subscript raw "lcs") as [c|] eqn:Ec; [|done].
  destruct (ICNode_init c) as [nc|] eqn:Enc; [|done].
  simplify_eq/=. exists a, b, c.
  repeat split; try done; by apply ICNode_init_icnode_of.
Qed.

(** X7.  A [SimMatch] has as many pairwise matches as the loop over the
    ['matches'] value of its raw result draws items (the entries of a list;
    none from an empty dictionary or string), and the query, match and lcs
    nodes of each hold the [id], [IC] and [label] of the ['a'], ['b'] and
    ['lcs'] objects of the item at the same position. *)
Theorem simmatch_pairwise_round_trip id_type_map (method : SimAlgorithm)
    (mode : string) (result : dict) (m : SimMatch) :
  make_match id_type_map method mode result = Ok m →
  ∃ v raw, result !! "matches" = Some v ∧
           iterate v = Ok raw ∧
           length (sm_pairwise_match m) = length raw ∧
           Forall2 pairwise_of raw (sm_pairwise_match m).
Proof.
  intros H.
  assert (_make_pairwise_matches result = Ok (sm_pairwise_match m)) as Hp.
  { unfold make_match in H. res_unfold.
    destruct (_make_pairwise_matches result); res_cases; done. }
  apply make_pairwise_matches_of in Hp as (v & raw & Hv & Hraw & Hf).
  exists v, raw. split; [done|]. split; [done|]. split; [|done].
  symmetry. by eapply Forall2_length.
Qed.

(** X8.  The query of a result that [_simsearch_to_simresult] returns holds
    the nodes of ['query_IRIs'], no negated identifiers, the ['unresolved']
    value of the response (an empty list for [None]), and as target
    identifiers the single group of nodes of ['target_IRIs'] in compare mode
    and a single empty group in any other mode. *)
Theorem simresult_query get_nodes_from_ids get_id_type_map
    (sim_resp : json) (method : SimAlgorithm) (mode : string) (result : SimResult) :
  _simsearch_to_simresult get_nodes_from_ids get_id_type_map sim_resp method mode
  = Ok result →
  subscript sim_resp "query_IRIs" ≫= get_nodes_from_ids = Ok (sq_ids (sr_query result)) ∧
  sq_negated_ids (sr_query result) = [] ∧
  (∃ unresolved, subscript sim_resp "unresolved" = Ok unresolved ∧
     sq_unresolved_ids (sr_query result)
     = match unresolved with JNull => JArr [] | v => v end) ∧
  (if String.eqb mode "compare"
   then ∃ nodes, subscript sim_resp "target_IRIs" ≫= get_nodes_from_ids = Ok nodes ∧
                 sq_target_ids (sr_query result) = [nodes]
   else sq_target_ids (sr_query result) = [[]]).
Proof.
  unfold _simsearch_to_simresult. res_unfold. intros H.
  destruct (subscript sim_resp "query_IRIs") as [iris|]; [|done].
  destruct (get_nodes_from_ids iris) as [sim_ids|]; [|done].
  destruct (ranked_input sim_resp method) as [results|]; [|done].
  destruct (_rank_results results method) as [ranked|]; [|done].
  destruct (mapM _ ranked) as [ids|]; [|done].
  destruct (get_id_type_map ids) as [id_type_map|]; [|done].
  destruct (mapM (make_match id_type_map method mode) ranked) as [matches|]; [|done].
  destruct (String.eqb mode "compare").
  - destruct (subscript sim_resp "target_IRIs") as [t|]; [|done].
    destruct (get_nodes_from_ids t) as [nodes|]; [|done].
    destruct (subscript sim_resp "unresolved") as [u|]; [|done].
    simplify_eq/=. repeat split; eauto.
  - destruct (subscript sim_resp "unresolved") as [u|]; [|done].
    simplify_eq/=. repeat split; eauto.
Qed.

Lemma before_colon_app (ns rest : string) :
  colon_free ns = true → before_colon (ns ++ String ":" rest) = ns.
Proof.
  induction ns as [|c ns IH]; simpl; [done|].
  intros [Hc Hns]%andb_prop. apply negb_true_iff in Hc. rewrite Hc.
  by rewrite IH.
Qed.

Lemma before_colon_free (s : string) : colon_free s = true → before_colon s = s.
Proof.
  induction s as [|c s IH]; simpl; [done|].
  intros [Hc Hs]%andb_prop. apply negb_true_iff in Hc. rewrite Hc.
  by rewrite IH.
Qed.

(** X9.  The taxon of a match is the entry of [NS_TO_TAX] for the
    namespace of its identifier, the part in front of the first colon (the
    whole identifier when it has no colon), and is absent when the table has
    no such entry. *)
Theorem simmatch_taxon id_type_map (method : SimAlgorithm) (mode : string)
    (result : dict) (m : SimMatch) (i ns local : string) :
  make_match id_type_map method mode result = Ok m →
  j_field result "id" = Ok (JStr i) →
  colon_free ns = true →
  i = (ns ++ String ":" local)%string ∨ i = ns →
  sm_taxon m = NS_TO_TAX !! ns.
Proof.
  unfold make_match. res_unfold. intros H Hid Hns Hi.
  rewrite Hid in H. simpl in H.
  assert (before_colon i = ns) as Hb.
  { destruct Hi as [-> | ->]; [by apply before_colon_app | by apply before_colon_free]. }
  rewrite Hb in H. res_cases; done.
Qed.

(** X10.  [compare] makes exactly one request, to [compareAttributeSets],
    with the reference classes under ['a'] and the query classes under
    ['b']; it raises what the request raises and otherwise returns what the
    assembly in compare mode returns for the response. *)
Theorem compare_one_request remote get_nodes_from_ids get_id_type_map
    (self : OwlSim2Api) (reference_classes query_classes : list string)
    (method : SimAlgorithm) :
  let owlsim_url := (url self ++ "compareAttributeSets")%string in
  let params : dict := {[ "a" := profile_param reference_classes;
                          "b" := profile_param query_classes ]} in
  let call := run (compare remote get_nodes_from_ids get_id_type_map self
                     reference_classes query_classes method) in
  call.2 = [HttpGet owlsim_url params] ∧
  call.1 = remote owlsim_url params ≫= λ owlsim_results,
           _simsearch_to_simresult get_nodes_from_ids get_id_type_map
             owlsim_results method "compare".
Proof.
  simpl. unfold compare, compare_attribute_sets, http_get, run, lift, mbind, M_bind.
  unfold res_bind. by destruct (remote _ _).
Qed.

(** X11.  [search] makes exactly one request, to [searchByAttributeSet],
    with the profile under ['a'] and no target namespace, whatever the
    negated classes; it raises what the request raises and otherwise returns
    what the assembly in search mode returns for the response. *)
Theorem search_one_unfiltered_request remote get_nodes_from_ids get_id_type_map
    (self : OwlSim2Api) (id_list negated_classes : list string) (method : SimAlgorithm) :
  let owlsim_url := (url self ++ "searchByAttributeSet")%string in
  let params : dict := {[ "a" := profile_param id_list; "target" := JNull ]} in
  let call := run (search remote get_nodes_from_ids get_id_type_map self
                     id_list negated_classes method) in
  filter (λ e, is_request e) call.2 = [HttpGet owlsim_url params] ∧
  call.1 = remote owlsim_url params ≫= λ owlsim_results,
           _simsearch_to_simresult get_nodes_from_ids get_id_type_map
             owlsim_results method "search".
Proof.
  simpl. unfold search, run. rewrite filtered_search_trace.
  unfold filtered_search, search_by_attribute_set, http_get, run, lift, emit,
    mbind, M_bind, mret, M_ret, res_bind. simpl.
  destruct (remote _ _); destruct negated_classes; simpl; done.
Qed.

(** X12.  A taxon that the default-category table does not hold, given
    without a category, makes [_get_namespace_filter] raise [KeyError];
    [filtered_search] raises it too and makes no request. *)
Theorem unresolvable_taxon_rejected remote get_nodes_from_ids get_id_type_map
    (self : OwlSim2Api) (id_list negated_classes : list string)
    (taxon : Z) (method : SimAlgorithm) :
  taxon_category_default !! taxon = None →
  let call := run (filtered_search remote get_nodes_from_ids get_id_type_map self
                     id_list negated_classes (Some taxon) None method) in
  _get_namespace_filter (Some taxon) None = Raise KeyError ∧
  call.1 = Raise KeyError ∧
  Forall (λ e, is_request e = false) call.2.
Proof.
  intros Hnone. cbv zeta.
  assert (_get_namespace_filter (Some taxon) None = Raise KeyError) as E.
  { unfold _get_namespace_filter, table_get. by rewrite Hnone. }
  split; [done|].
  unfold run. rewrite filtered_search_trace.
  unfold filtered_search, run, lift, mbind, M_bind, mret, M_ret.
  rewrite E. simpl. split; [done|].
  destruct negated_classes; simpl; repeat constructor.
Qed.

(** X13.  When [_get_namespace_filter] resolves a taxon given alone, the
    namespace is the entry of [TAX_TO_NS] for the taxon and its default
    category, and [NS_TO_TAX] maps that namespace back to the node of the
    same taxon, ["NCBITaxon:"] followed by the taxon number. *)
Theorem namespace_filter_taxon_consistent (taxon : Z) (namespace : string) :
  _get_namespace_filter (Some taxon) None = Ok (Some namespace) →
  taxon_category_default !! taxon ≫= (λ category,
    TAX_TO_NS !! taxon ≫= λ by_category, by_category !! category) = Some namespace ∧
  node_id <$> NS_TO_TAX !! namespace = Some (JStr ("NCBITaxon:" ++ pretty taxon)).
Proof.
  unfold _get_namespace_filter, table_get. res_unfold.
  destruct (taxon_category_default !! taxon) as [category|] eqn:E; [|done].
  assert (taxon ∈ dom taxon_category_default) as Hdom by (apply elem_of_dom; eauto).
  assert (dom taxon_category_default
          = list_to_set [10090; 9606; 7227; 6239; 7955]%Z) as Hd by done.
  rewrite Hd in Hdom. set_unfold in Hdom.
  destruct Hdom as [->|[->|[->|[->|[->|[]]]]]];
    vm_compute in E; simplify_eq; vm_compute; intros H; by simplify_eq.
Qed.

(** X14.  [matchers] lists every scoring method exactly once; distinct
    methods have distinct keys in [method2key], and no key is one of the
    fields ['rank'], ['j'] and ['matches'] that the ranker and the assembly
    write or read. *)
Theorem matchers_distinct_keys :
  NoDup matchers ∧
  (∀ method, method ∈ matchers) ∧
  (∀ m1 m2, method2key m1 = method2key m2 → m1 = m2) ∧
  (∀ method, method2key method ∉ ["rank"; "j"; "matches"]).
Proof.
  split; [|split; [|split]].
  - unfold matchers.
    repeat (apply NoDup_cons; split;
            [intros H; repeat (apply elem_of_cons in H as [H|H]; [discriminate H|]);
             by apply elem_of_nil in H|]).
    apply NoDup_nil_2.
  - intros []; unfold matchers; repeat (first [by left | right]).
  - intros [] []; simpl; intros H; (reflexivity || discriminate H).
  - intros []; simpl; intros H;
      repeat (apply elem_of_cons in H as [H|H]; [discriminate H|]);
      by apply elem_of_nil in H.
Qed.

Lemma profile_ic_loop_last (d0 : gmap string json) (input : list json)
    (pairs : list (string * json)) :
  Forall2 ic_entry input pairs →
  ∃ d, profile_ic_loop d0 input = Ok d ∧
       ∀ i, d !! i = match last (filter (λ p, p.1 = i) pairs) with
                     | Some p => Some p.2
                     | None => d0 !! i
                     end.
Proof.
  intros H. revert d0.
  induction H as [|cls [i0 ic] input pairs [Hid Hic] H IH]; intros d0.
  - by exists d0.
  - simpl in Hid, Hic. simpl. rewrite Hic, Hid. res_unfold. simpl.
    destruct (IH (<[i0 := ic]> d0)) as (d & Hd & Hlook).
    exists d. split; [done|]. intros i. rewrite Hlook, filter_cons. simpl.
    destruct (decide (i0 = i)) as [->|Hne].
    + rewrite lookup_insert_eq, last_cons. by destruct (last _).
    + by rewrite lookup_insert_ne.
Qed.

(** X17.  For a response whose ['input'] is a list of objects with a string
    [id] and an [IC], [get_profile_ic] makes the one request to
    [getAttributeInformationProfile] with the profile under ['a'] and no
    categories, and returns the dictionary that maps each identifier to the
    [IC] of the last object of the list with that identifier. *)
Theorem get_profile_ic_last_wins remote (self : OwlSim2Api) (profile : list string)
    (sim_response : json) (input : list json) (pairs : list (string * json)) :
  let owlsim_url := (url self ++ "getAttributeInformationProfile")%string in
  let params : dict := {[ "a" := profile_param profile; "r" := JNull ]} in
  remote owlsim_url params = Ok sim_response →
  subscript sim_response "input" = Ok (JArr input) →
  Forall2 ic_entry input pairs →
  ∃ profile_ic,
    run (get_profile_ic remote self profile) = (Ok profile_ic, [HttpGet owlsim_url params]) ∧
    ∀ i, profile_ic !! i = snd <$> last (filter (λ p, p.1 = i) pairs).
Proof.
  intros owlsim_url params Hremote Hinput Hpairs.
  destruct (profile_ic_loop_last ∅ input pairs Hpairs) as (d & Hd & Hlook).
  exists d. split.
  - unfold get_profile_ic, get_attribute_information_profile, http_get, run, lift,
      mbind, M_bind, optional_profile_param. simpl.
    fold owlsim_url. fold params. rewrite Hremote. simpl.
    rewrite Hinput. unfold res_bind. simpl. by rewrite Hd.
  - intros i. rewrite Hlook, lookup_empty.
    by destruct (last _).
Qed.

(** X15.  In search mode [_simsearch_to_simresult] does not read
    ['target_IRIs']: setting that entry of the response to any value changes
    nothing in what it returns or raises. *)
Theorem search_ignores_target_IRIs get_nodes_from_ids get_id_type_map
    (o : dict) (v : json) (method : SimAlgorithm) :
  _simsearch_to_simresult get_nodes_from_ids get_id_type_map
    (JObj (<["target_IRIs" := v]> o)) method "search"
  = _simsearch_to_simresult get_nodes_from_ids get_id_type_map (JObj o) method "search".
Proof.
  unfold _simsearch_to_simresult, ranked_input, subscript, getitem.
  rewrite (lookup_insert_ne o "target_IRIs" "query_IRIs"),
    (lookup_insert_ne o "target_IRIs" "results"),
    (lookup_insert_ne o "target_IRIs" "unresolved") by done.
  reflexivity.
Qed.

Lemma simsearch_to_simresult_compare_target get_nodes_from_ids get_id_type_map
    (sim_resp : json) (method : SimAlgorithm) (result : SimResult) :
  _simsearch_to_simresult get_nodes_from_ids get_id_type_map sim_resp method "compare"
  = Ok result →
  ∃ target, subscript sim_resp "target_IRIs" = Ok target.
Proof.
  unfold _simsearch_to_simresult. res_unfold. intros H. simpl in H.
  destruct (subscript sim_resp "target_IRIs") as [target|]; [by exists target|].
  res_cases; done.
Qed.

(** X16.  In compare mode a response without ['target_IRIs'] never yields a
    result: [_simsearch_to_simresult] raises. *)
Theorem compare_needs_target_IRIs get_nodes_from_ids get_id_type_map
    (o : dict) (method : SimAlgorithm) :
  o !! "target_IRIs" = None →
  ∃ e, _simsearch_to_simresult get_nodes_from_ids get_id_type_map (JObj o) method "compare"
       = Raise e.
Proof.
  intros Hnone.
  destruct (_simsearch_to_simresult _ _ _ _ _) as [result|e] eqn:E; [|by exists e].
  apply simsearch_to_simresult_compare_target in E as (target & Ht).
  unfold subscript, getitem in Ht. by rewrite Hnone in Ht.
Qed.

Lemma make_match_type id_type_map method mode result m :
  make_match id_type_map method mode result = Ok m →
  ∃ rest, id_type_map (sm_id m) = Some (sm_type m :: rest).
Proof.
  unfold make_match. res_unfold. intros H. res_cases; eauto.
Qed.

(** X18.  When [_simsearch_to_simresult] returns, the type map was asked
    once, for the identifiers of the matches in their order, and the type of
    each match is the first type tag that the map holds for its
    identifier. *)
Theorem simresult_types_batched get_nodes_from_ids get_id_type_map
    (sim_resp : json) (method : SimAlgorithm) (mode : string) (result : SimResult) :
  _simsearch_to_simresult get_nodes_from_ids get_id_type_map sim_resp method mode
  = Ok result →
  ∃ id_type_map,
    get_id_type_map (sm_id <$> sr_matches result) = Ok id_type_map ∧
    Forall (λ m, ∃ rest, id_type_map (sm_id m) = Some (sm_type m :: rest))
      (sr_matches result).
Proof.
  unfold _simsearch_to_simresult. res_unfold. intros H.
  destruct (subscript sim_resp "query_IRIs") as [iris|]; [|done].
  destruct (get_nodes_from_ids iris) as [sim_ids|]; [|done].
  destruct (ranked_input sim_resp method) as [results|]; [|done].
  destruct (_rank_results results method) as [ranked|]; [|done].
  destruct (mapM _ ranked) as [ids|] eqn:Eids; [|done].
  destruct (get_id_type_map ids) as [id_type_map|] eqn:Etm; [|done].
  destruct (mapM (make_match id_type_map method mode) ranked) as [matches|] eqn:Em;
    [|done].
  assert (sr_matches result = matches) as -> by (res_cases; done).
  apply mapM_res_Ok in Eids, Em.
  assert (ids = sm_id <$> matches) as ->.
  { clear -Eids Em. revert ids Eids.
    induction Em as [|r m ranked matches Hr Hm IH]; intros ids Hids.
    - by inversion Hids.
    - inversion Hids as [|? i ? ids' Hi Hids']; subst.
      apply make_match_fields in Hr as (Hid & _).
      rewrite fmap_cons. f_equal; [congruence | by apply IH]. }
  exists id_type_map. split; [done|].
  eapply Forall2_Forall_r; [exact Em|]. apply Forall_true.
  intros r m. apply make_match_type.
Qed.

(** ** The theorems on the sample data *)

Lemma example_results_numbers :
  Forall (has_number (method2key PHENODIGM)) example_results.
Proof. repeat constructor; (eexists; split; [vm_compute; reflexivity|done]). Defined.

Lemma rank_results_dense_ranking_witness :
  example_results ≠ [] ∧
  Forall (has_number (method2key PHENODIGM)) example_results ∧
  (∃ sorted_results out sks,
     _rank_results example_results PHENODIGM = Ok out ∧
     sorted_results ≡ₚ example_results ∧
     Forall2 rank_set sorted_results out ∧
     Forall2 (ranked (method2key PHENODIGM)) out sks ∧
     dense_ranking sks) ∧
  ranks_of (_rank_results example_results PHENODIGM) = Some [1; 1; 2]%Z.
Proof.
  assert (Hne : example_results ≠ []) by done.
  split; [exact Hne|]. split; [exact example_results_numbers|]. split.
  - exact (proj1 (rank_results_dense_ranking example_results PHENODIGM Hne
                    example_results_numbers)).
  - vm_compute. reflexivity.
Defined.

Lemma rank_results_stable_witness :
  Forall (has_number (method2key PHENODIGM)) example_results ∧
  _rank_results example_results PHENODIGM = Ok example_ranked ∧
  result_ids example_ranked
  = [Ok (JStr "MGI:2"); Ok (JStr "ZFIN:3"); Ok (JStr "MONDO:1")] ∧
  ∀ x : pynum, ∃ k : Z,
    filter (λ o, number_score (method2key PHENODIGM) o = Some x) example_ranked
    = (λ r, set_rank r k)
      <$> filter (λ r, number_score (method2key PHENODIGM) r = Some x) example_results.
Proof.
  assert (H : _rank_results example_results PHENODIGM = Ok example_ranked).
  { vm_compute. reflexivity. }
  split; [exact example_results_numbers|].
  split; [exact H|]. split; [vm_compute; reflexivity|].
  exact (rank_results_stable example_results example_ranked PHENODIGM
           example_results_numbers H).
Defined.


Lemma compare_rank_not_applicable_witness :
  example_compare = (Ok (result_of example_compare), example_compare.2) ∧
  example_search = (Ok (result_of example_search), example_search.2) ∧
  sm_rank <$> sr_matches (result_of example_compare)
  = [JStr "NaN"; JStr "NaN"; JStr "NaN"] ∧
  sm_rank <$> sr_matches (result_of example_search) = [JInt 1; JInt 1; JInt 2] ∧
  Forall (λ m, sm_rank m = JStr "NaN") (sr_matches (result_of example_compare)) ∧
  ∃ owlsim_url params sim_resp results ranked,
    HttpGet owlsim_url params ∈ example_search.2 ∧
    example_remote owlsim_url params = Ok sim_resp ∧
    response_results sim_resp = Ok results ∧
    _rank_results results PHENODIGM = Ok ranked ∧
    Forall2 (λ r m, ∃ k, rank_of r = Some k ∧ sm_rank m = JInt k)
      ranked (sr_matches (result_of example_search)).
Proof.
  assert (Hc : example_compare = (Ok (result_of example_compare), example_compare.2)).
  { vm_compute. reflexivity. }
  assert (Hs : example_search = (Ok (result_of example_search), example_search.2)).
  { vm_compute. reflexivity. }
  split; [exact Hc|]. split; [exact Hs|].
  split; [vm_compute; reflexivity|]. split; [vm_compute; reflexivity|].
  pose proof (compare_rank_not_applicable example_remote example_nodes example_types
                example_api ["HP:0000252"] ["HP:0000253"] ["HP:0000252"] ["HP:0000253"]
                None None PHENODIGM) as [Hcompare Hsearch].
  split.
  - exact (Hcompare _ _ Hc).
  - exact (Hsearch _ _ Hs).
Defined.

Lemma simmatch_significance_nan_witness :
  _simsearch_to_simresult example_nodes example_types example_response PHENODIGM "search"
  = Ok (result_of example_search) ∧
  length (sr_matches (result_of example_search)) = 3%nat ∧
  Forall (λ m, sm_significance m = JStr "NaN") (sr_matches (result_of example_search)).
Proof.
  assert (H : _simsearch_to_simresult example_nodes example_types example_response
                PHENODIGM "search" = Ok (result_of example_search)).
  { vm_compute. reflexivity. }
  split; [exact H|]. split; [vm_compute; reflexivity|].
  exact (simmatch_significance_nan _ _ _ _ _ _ H).
Defined.

(** ** The further properties on the sample data *)

Lemma example_ranked_eq : _rank_results example_results PHENODIGM = Ok example_ranked.
Proof. vm_compute. reflexivity. Defined.

Lemma example_search_eq :
  _simsearch_to_simresult example_nodes example_types example_response PHENODIGM "search"
  = Ok (result_of example_search).
Proof. vm_compute. reflexivity. Defined.

Lemma example_simmatch_eq :
  make_match example_type_map PHENODIGM "search" example_first = Ok example_simmatch.
Proof. vm_compute. reflexivity. Defined.


Lemma rank_results_missing_score_witness :
  Forall (λ r, has_score (method2key PHENODIGM) r ∨ r !! method2key PHENODIGM = None)
    example_partly_scored ∧
  Exists (λ r, r !! method2key PHENODIGM = None) example_partly_scored ∧
  _rank_results example_partly_scored PHENODIGM = Raise KeyError.
Proof.
  assert (H1 : Forall (λ r, has_score (method2key PHENODIGM) r
                            ∨ r !! method2key PHENODIGM = None) example_partly_scored).
  { constructor; [left; by eexists|]. constructor; [by right|constructor]. }
  assert (H2 : Exists (λ r, r !! method2key PHENODIGM = None) example_partly_scored).
  { apply Exists_cons_tl, Exists_cons_hd. reflexivity. }
  split; [exact H1|]. split; [exact H2|].
  exact (rank_results_missing_score _ _ H1 H2).
Defined.

Lemma rank_results_rank_bounds_witness :
  _rank_results example_results PHENODIGM = Ok example_ranked ∧
  length example_ranked = length example_results ∧
  (∀ i o, example_ranked !! i = Some o →
     ∃ k, rank_of o = Some k ∧ (1 ≤ k ≤ Z.of_nat i + 1)%Z) ∧
  (∀ i j o1 o2 k1 k2, (i ≤ j)%nat →
     example_ranked !! i = Some o1 → example_ranked !! j = Some o2 →
     rank_of o1 = Some k1 → rank_of o2 = Some k2 → (k1 ≤ k2)%Z).
Proof.
  split; [exact example_ranked_eq|].
  exact (rank_results_rank_bounds _ _ _ example_ranked_eq).
Defined.

Lemma rank_results_rank_counts_witness :
  Forall (has_number (method2key PHENODIGM)) example_results ∧
  _rank_results example_results PHENODIGM = Ok example_ranked ∧
  size (greater_scores (method2key PHENODIGM) example_results (Fin (Qc_of_Z 7)))
  = 1%nat ∧
  ∀ o x, o ∈ example_ranked → number_score (method2key PHENODIGM) o = Some x →
    rank_of o
    = Some (1 + Z.of_nat (size (greater_scores (method2key PHENODIGM)
                                  example_results x)))%Z.
Proof.
  split; [exact example_results_numbers|].
  split; [exact example_ranked_eq|]. split; [vm_compute; reflexivity|].
  exact (rank_results_rank_counts _ _ _ example_results_numbers example_ranked_eq).
Defined.

Lemma simsearch_to_simresult_no_results_witness :
  subscript example_empty_response "query_IRIs" ≫= example_nodes
  = Ok [mkNode (JStr "HP:0000252") JNull] ∧
  response_results example_empty_response = Ok [] ∧
  _simsearch_to_simresult example_nodes example_types example_empty_response
    PHENODIGM "search" = Raise IndexError.
Proof.
  assert (H1 : subscript example_empty_response "query_IRIs" ≫= example_nodes
               = Ok [mkNode (JStr "HP:0000252") JNull]) by reflexivity.
  assert (H2 : response_results example_empty_response = Ok []) by reflexivity.
  split; [exact H1|]. split; [exact H2|].
  exact (simsearch_to_simresult_no_results _ _ _ _ _ _ H1 H2).
Defined.

Lemma simresult_matches_descending_witness :
  _simsearch_to_simresult example_nodes example_types example_response PHENODIGM "search"
  = Ok (result_of example_search) ∧
  sm_score <$> sr_matches (result_of example_search) = [JInt 10; JInt 10; JInt 7] ∧
  response_results example_response = Ok example_results ∧
  Forall (has_number (method2key PHENODIGM)) example_results ∧
  ∃ results ranked,
    response_results example_response = Ok results ∧
    _rank_results results PHENODIGM = Ok ranked ∧
    length (sr_matches (result_of example_search)) = length results ∧
    Forall2 (λ r m, j_field r "id" = Ok (sm_id m) ∧
                    j_field r "label" = Ok (sm_label m) ∧
                    getitem r (method2key PHENODIGM) = Ok (sm_score m))
      ranked (sr_matches (result_of example_search)) ∧
    (Forall (has_number (method2key PHENODIGM)) results →
     ∀ i j m1 m2, (i ≤ j)%nat →
       sr_matches (result_of example_search) !! i = Some m1 →
       sr_matches (result_of example_search) !! j = Some m2 →
       ∃ x1 x2, to_num (sm_score m1) = Some x1 ∧ to_num (sm_score m2) = Some x2 ∧
                num_le x2 x1 = true).
Proof.
  split; [exact example_search_eq|]. split; [vm_compute; reflexivity|].
  split; [vm_compute; reflexivity|]. split; [exact example_results_numbers|].
  exact (simresult_matches_descending _ _ _ _ _ _ example_search_eq).
Defined.

Lemma simmatch_pairwise_round_trip_witness :
  make_match example_type_map PHENODIGM "search" example_first = Ok example_simmatch ∧
  length (sm_pairwise_match example_simmatch) = 1%nat ∧
  ∃ v raw, example_first !! "matches" = Some v ∧
           iterate v = Ok raw ∧
           length (sm_pairwise_match example_simmatch) = length raw ∧
           Forall2 pairwise_of raw (sm_pairwise_match example_simmatch).
Proof.
  split; [exact example_simmatch_eq|]. split; [vm_compute; reflexivity|].
  exact (simmatch_pairwise_round_trip _ _ _ _ _ example_simmatch_eq).
Defined.

Lemma simresult_query_witness :
  _simsearch_to_simresult example_nodes example_types example_response PHENODIGM "search"
  = Ok (result_of example_search) ∧
  subscript example_response "query_IRIs" ≫= example_nodes
  = Ok (sq_ids (sr_query (result_of example_search))) ∧
  sq_negated_ids (sr_query (result_of example_search)) = [] ∧
  (∃ unresolved, subscript example_response "unresolved" = Ok unresolved ∧
     sq_unresolved_ids (sr_query (result_of example_search))
     = match unresolved with JNull => JArr [] | v => v end) ∧
  sq_target_ids (sr_query (result_of example_search)) = [[]].
Proof.
  split; [exact example_search_eq|].
  exact (simresult_query _ _ _ _ _ _ example_search_eq).
Defined.

Lemma simmatch_taxon_witness :
  make_match example_type_map PHENODIGM "search" example_first = Ok example_simmatch ∧
  j_field example_first "id" = Ok (JStr "MGI:2") ∧
  colon_free "MGI" = true ∧
  sm_taxon example_simmatch = NS_TO_TAX !! "MGI" ∧
  sm_taxon example_simmatch
  = Some (mkNode (JStr "NCBITaxon:10090") (JStr "Mus musculus")).
Proof.
  assert (H : j_field example_first "id" = Ok (JStr "MGI:2")) by (vm_compute; reflexivity).
  split; [exact example_simmatch_eq|]. split; [exact H|]. split; [reflexivity|].
  split; [|vm_compute; reflexivity].
  exact (simmatch_taxon _ _ _ _ _ "MGI:2" "MGI" "2" example_simmatch_eq H eq_refl
           (or_introl eq_refl)).
Defined.

Lemma unresolvable_taxon_rejected_witness :
  taxon_category_default !! 562%Z = None ∧
  _get_namespace_filter (Some 562%Z) None = Raise KeyError ∧
  (run (filtered_search example_remote example_nodes example_types example_api
          ["HP:0000252"] [] (Some 562%Z) None PHENODIGM)).1 = Raise KeyError ∧
  Forall (λ e, is_request e = false)
    (run (filtered_search example_remote example_nodes example_types example_api
            ["HP:0000252"] [] (Some 562%Z) None PHENODIGM)).2.
Proof.
  assert (H : taxon_category_default !! 562%Z = None) by reflexivity.
  split; [exact H|].
  exact (unresolvable_taxon_rejected example_remote example_nodes example_types
           example_api ["HP:0000252"] [] 562%Z PHENODIGM H).
Defined.

Lemma namespace_filter_taxon_consistent_witness :
  _get_namespace_filter (Some 9606%Z) None = Ok (Some "MONDO") ∧
  taxon_category_default !! 9606%Z ≫= (λ category,
    TAX_TO_NS !! 9606%Z ≫= λ by_category, by_category !! category) = Some "MONDO" ∧
  node_id <$> NS_TO_TAX !! "MONDO" = Some (JStr ("NCBITaxon:" ++ pretty 9606%Z)).
Proof.
  assert (H : _get_namespace_filter (Some 9606%Z) None = Ok (Some "MONDO"))
    by reflexivity.
  split; [exact H|].
  exact (namespace_filter_taxon_consistent 9606%Z "MONDO" H).
Defined.

Lemma compare_needs_target_IRIs_witness :
  example_search_response !! "target_IRIs" = None ∧
  ∃ e, _simsearch_to_simresult example_nodes example_types
         (JObj example_search_response) PHENODIGM "compare" = Raise e.
Proof.
  assert (H : example_search_response !! "target_IRIs" = None) by reflexivity.
  split; [exact H|].
  exact (compare_needs_target_IRIs example_nodes example_types _ PHENODIGM H).
Defined.

Lemma get_profile_ic_last_wins_witness :
  example_ic_remote "owlsim/getAttributeInformationProfile"
    {[ "a" := profile_param ["HP:0000252"; "HP:0000253"]; "r" := JNull ]}
  = Ok example_ic_response ∧
  subscript example_ic_response "input" = Ok (JArr example_ic_input) ∧
  Forall2 ic_entry example_ic_input example_ic_pairs ∧
  ∃ profile_ic,
    run (get_profile_ic example_ic_remote example_api ["HP:0000252"; "HP:0000253"])
    = (Ok profile_ic,
       [HttpGet "owlsim/getAttributeInformationProfile"
          {[ "a" := profile_param ["HP:0000252"; "HP:0000253"]; "r" := JNull ]}]) ∧
    ∀ i, profile_ic !! i = snd <$> last (filter (λ p, p.1 = i) example_ic_pairs).
Proof.
  assert (H1 : example_ic_remote "owlsim/getAttributeInformationProfile"
                 {[ "a" := profile_param ["HP:0000252"; "HP:0000253"]; "r" := JNull ]}
               = Ok example_ic_response) by reflexivity.
  assert (H2 : subscript example_ic_response "input" = Ok (JArr example_ic_input))
    by reflexivity.
  assert (H3 : Forall2 ic_entry example_ic_input example_ic_pairs).
  { repeat constructor. }
  split; [exact H1|]. split; [exact H2|]. split; [exact H3|].
  exact (get_profile_ic_last_wins example_ic_remote example_api
           ["HP:0000252"; "HP:0000253"] _ _ _ H1 H2 H3).
Defined.

Lemma simresult_types_batched_witness :
  _simsearch_to_simresult example_nodes example_types example_response PHENODIGM "search"
  = Ok (result_of example_search) ∧
  sm_type <$> sr_matches (result_of example_search)
  = [JStr "gene"; JStr "gene"; JStr "gene"] ∧
  ∃ id_type_map,
    example_types (sm_id <$> sr_matches (result_of example_search)) = Ok id_type_map ∧
    Forall (λ m, ∃ rest, id_type_map (sm_id m) = Some (sm_type m :: rest))
      (sr_matches (result_of example_search)).
Proof.
  split; [exact example_search_eq|]. split; [vm_compute; reflexivity|].
  exact (simresult_types_batched _ _ _ _ _ _ example_search_eq).
Defined.

Lemma rank_results_rearranges_witness :
  _rank_results example_nan_results JACCARD
  = Ok (zip_with set_rank example_nan_results [1; 1; 1]%Z) ∧
  ∃ sorted_results,
    sorted_results ≡ₚ example_nan_results ∧
    Forall2 rank_set sorted_results
      (zip_with set_rank example_nan_results [1; 1; 1]%Z).
Proof.
  assert (H : _rank_results example_nan_results JACCARD
              = Ok (zip_with set_rank example_nan_results [1; 1; 1]%Z)).
  { vm_compute. reflexivity. }
  split; [exact H|].
  exact (rank_results_rearranges _ _ _ H).
Defined.
